(** * BuildKml: ordering, greedy distance filter and KML document of [kml.py]

    A shallow embedding of the class [Kml] of [src/kml.py] and the
    properties of its placemark store.

    - Python floats are the binary64 floats of the kernel ([PrimFloat]); the
    comparisons [<] and [==] are [PrimFloat.ltb] and [PrimFloat.eqb]
    (false on NaN, as in Python).
    - Python exceptions are values of [exception]; a method that can raise
    returns a [result].  A method that mutates the placemark list returns
    the list it leaves behind next to its result, so that the state reached
    when an exception escapes is part of the model.
    - [print] calls write to standard output only and are left out. *)

From Stdlib Require Import Floats ZArith List String Ascii Bool Lia.
From Stdlib Require Import Sorting.Sorted Sorting.Permutation.
From stdpp Require Import base gmap.
Import ListNotations.

#[local] Open Scope Z_scope.
#[local] Open Scope string_scope.
#[local] Open Scope list_scope.
#[local] Open Scope float_scope.

(** * Part I: the model *)

(** ** Exceptions and results *)

(** The exception classes that the modelled code can meet.  [PermissionError]
    and [FileNotFoundError] are subclasses of [OSError] ([IOError] is an alias
    of [OSError]); [UnicodeEncodeError] is a subclass of [ValueError]. *)
Inductive exception : Set :=
  | IndexError
  | KeyError
  | ValueError
  | TypeError
  | UnicodeEncodeError
  | ExpatError
  | OSError
  | PermissionError
  | FileNotFoundError.

Definition isinstance_OSError (e : exception) : bool :=
  match e with
  | OSError | PermissionError | FileNotFoundError => true
  | _ => false
  end.

Definition isinstance_ValueError (e : exception) : bool :=
  match e with
  | ValueError | UnicodeEncodeError => true
  | _ => false
  end.

Definition isinstance_TypeError (e : exception) : bool :=
  match e with
  | TypeError => true
  | _ => false
  end.

Inductive result (A : Type) : Type :=
  | Ret (a : A)
  | Raise (e : exception).

Arguments Ret {A} a.
Arguments Raise {A} e.

Definition bind {A B : Type} (r : result A) (k : A -> result B) : result B :=
  match r with
  | Ret a => k a
  | Raise e => Raise e
  end.

Declare Scope result_scope.
Delimit Scope result_scope with result.
Notation "'let*' x ':=' r 'in' k" := (bind r (fun x => k))
  (at level 10, x pattern, r at level 100, k at level 200) : result_scope.
#[local] Open Scope result_scope.

(** ** The placemark store *)

(** A placemark is the dict built by [_add_placemark]: the keys ["Latitude"],
    ["Longitude"], ["Name"] and ["Folder"], and the key ["Export"] that only
    [_filter_placemarks] sets ([None] while the key is absent). *)
Record placemark : Set := mk_placemark {
  Latitude : float;
  Longitude : float;
  Name : string;
  Folder : string;
  Export : option bool
  }.

(** [my_coord["Export"] = b] *)
Definition set_Export (my_coord : placemark) (b : bool) : placemark :=
  {| Latitude := Latitude my_coord;
     Longitude := Longitude my_coord;
     Name := Name my_coord;
     Folder := Folder my_coord;
     Export := Some b |}.

(** What [_add_placemark] stored, without the derived flag. *)
Definition data (c : placemark) : float * float * string * string :=
  (Latitude c, Longitude c, Name c, Folder c).

Definition exported (c : placemark) : bool :=
  match Export c with
  | Some true => true
  | _ => false
  end.

(** The coordinates, the only fields the filter reads. *)
Definition coords (c : placemark) : float * float :=
  (Latitude c, Longitude c).

(** ** The class [Kml] and its instances *)

Module Objects.

(** The attributes that an instance of [Kml] holds itself: [map_name], which
    [__init__] binds, and [_placemark_list], which no instance has until
    [_reorder_placemarks] assigns [self._placemark_list]. *)
Record instance : Set := mk_instance {
    map_name : string;
    own_placemark_list : option (list placemark)
  }.

(** The class and the objects created so far.  The class body evaluates
    [_placemark_list = []] once: [Kml_placemark_list] is the content of
    that one list object, the value of the class attribute. *)
Record heap : Set := mk_heap {
    Kml_placemark_list : list placemark;
    instances : gmap nat instance;
    next_id : nat
  }.

(** The heap after the [class] statement. *)
Definition class_defined : heap :=
  {| Kml_placemark_list := []; instances := ∅; next_id := 0 |}.

(** [Kml(map_name)]: a new object, on which [__init__] binds [map_name]
    and nothing else. *)
Definition Kml (map_name : string) (h : heap) : nat * heap :=
  (next_id h,
   {| Kml_placemark_list := Kml_placemark_list h;
      instances :=
        <[next_id h := {| map_name := map_name;
                          own_placemark_list := None |}]> (instances h);
      next_id := S (next_id h) |}).

(** [self._placemark_list]: the attribute of the instance if it has one,
    the class attribute otherwise ([None] when [self] is no object). *)
Definition placemark_list_of (h : heap) (self : nat)
  : option (list placemark) :=
  match instances h !! self with
  | Some o =>
      Some (match own_placemark_list o with
            | Some l => l
            | None => Kml_placemark_list h
            end)
  | None => None
  end.

(** [Kml._add_placemark]: [append] mutates the list object that
    [self._placemark_list] evaluates to. *)
Definition _add_placemark (h : heap) (self : nat)
    (latitude longitude : float) (name folder : string) : option heap :=
  let new := {| Latitude := latitude; Longitude := longitude;
                Name := name; Folder := folder; Export := None |} in
  match instances h !! self with
  | Some o =>
      Some (match own_placemark_list o with
            | Some l =>
                {| Kml_placemark_list := Kml_placemark_list h;
                   instances :=
                     <[self := {| map_name := map_name o;
                                  own_placemark_list := Some (l ++ [new]) |}]>
                       (instances h);
                   next_id := next_id h |}
            | None =>
                {| Kml_placemark_list := Kml_placemark_list h ++ [new];
                   instances := instances h;
                   next_id := next_id h |}
            end)
  | None => None
  end.

End Objects.

(** ** XML elements *)

(** An [xml.etree.ElementTree.Element]: tag, attributes, text and children. *)
#[warnings="-register-all"]
Inductive Element : Set :=
  | Elem (tag : string) (attrib : list (string * string))
         (text : option string) (children : list Element).

Definition tag_of (x : Element) : string :=
  match x with Elem t _ _ _ => t end.

Definition text_of (x : Element) : option string :=
  match x with Elem _ _ t _ => t end.

Definition children_of (x : Element) : list Element :=
  match x with Elem _ _ _ c => c end.

(** ** Library code *)

(** The library functions that the methods call and the repository does not
    contain, as an interface: the C library's [sin], [cos] and [atan2] on
    binary64 floats, behind [math.sin], [math.cos] and [math.atan2];
    [os.path.split], which depends on the platform; [ET.tostring(root,
    encoding="unicode")]; [minidom.parseString(s).toprettyxml()], which can
    raise; and [write_file path text], the outcome of [open(path, "w",
    encoding="utf-8")] followed by [write(text)] in the [with] block: [None]
    when the text was written, the exception otherwise. *)
Class Library : Type := {
    libm_sin : float -> float;
    libm_cos : float -> float;
    libm_atan2 : float -> float -> float;
    os_path_split : string -> string * string;
    ET_tostring : Element -> string;
    minidom_toprettyxml : string -> result string;
    write_file : string -> string -> option exception
  }.

(** ** The [math] module *)

(** [math.pi], the binary64 float nearest to pi (3.141592653589793). *)
Definition math_pi : float := 0x1.921fb54442d18p+1.

(** [math.sqrt]: the correctly rounded square root, [ValueError] ("math
    domain error") below zero. *)
Definition math_sqrt (x : float) : result float :=
  if x <? 0 then Raise ValueError else Ret (sqrt x).

(** ** [str] of a float *)

(** [str(x)] of a float is [repr(x)]: the shortest decimal string that reads
    back as [x], in the layout of CPython's [float_repr_style = 'short'].
    The digits are computed exactly, on integers. *)
Module PyFloat.

#[local] Open Scope Z_scope.

(** Decimal digits of a natural number, most significant first. *)
Fixpoint digits_fuel (fuel : nat) (n : Z) (acc : string) : string :=
  match fuel with
  | O => acc
  | S fuel' =>
      let acc' := String (ascii_of_N (48 + Z.to_N (n mod 10))) acc in
      if n <? 10 then acc' else digits_fuel fuel' (n / 10) acc'
  end.

Definition digits (n : Z) : string :=
  digits_fuel (S (Z.to_nat (Z.log2 n))) n EmptyString.

Fixpoint zeros (n : nat) : string :=
  match n with
  | O => EmptyString
  | S n' => String "0" (zeros n')
  end.

(** [D * 10^k] compared with [N * 2^e]. *)
Definition cmp_dec_bin (D k N e : Z) : comparison :=
  (D * 10 ^ Z.max k 0 * 2 ^ Z.max (- e) 0
   ?= N * 2 ^ Z.max e 0 * 10 ^ Z.max (- k) 0).

(** The position of the decimal point of [m * 2^e]: the [p] with
    [10^(p-1) <= m * 2^e < 10^p], searched downwards from [p]. *)
Fixpoint decpt_from (fuel : nat) (p m e : Z) : Z :=
  match fuel with
  | O => p
  | S fuel' =>
      match cmp_dec_bin 1 (p - 1) m e with
      | Gt => decpt_from fuel' (p - 1) m e
      | _ => p
      end
  end.

Definition decpt_of (m e : Z) : Z :=
  decpt_from 8 ((Z.log2 m + e + 1) * 30103 / 100000 + 2) m e.

(** The floor of [m * 2^e / 10^k]. *)
Definition floor_scaled (m e k : Z) : Z :=
  (m * 2 ^ Z.max e 0 * 10 ^ Z.max (- k) 0)
  / (2 ^ Z.max (- e) 0 * 10 ^ Z.max k 0).

(** Whether [D * 10^k] rounds to the float [m * 2^e] when read back: it lies
    between the midpoints to the neighbouring floats, the midpoints included
    when [m] is even (round half to even).  The lower neighbour is half as
    far when [m] is a power of two. *)
Definition reads_back (m e D k : Z) : bool :=
  let lo := if (m =? 2 ^ 52) && (-1074 <? e) then 4 * m - 1 else 4 * m - 2 in
  let hi := 4 * m + 2 in
  let inclusive := Z.even m in
  match cmp_dec_bin D k lo (e - 2), cmp_dec_bin D k hi (e - 2) with
  | Gt, Lt => true
  | Eq, _ | _, Eq => inclusive
  | _, _ => false
  end.

(** The shortest digits: for [n = 1, 2, ...] the two [n]-digit decimals
    around the value; the first [n] at which one reads back gives the
    digits, the nearer one when both do (the even one on a tie). *)
Fixpoint shortest_from (fuel : nat) (n : Z) (m e p : Z) : Z * Z :=
  let k := p - n in
  let d_lo := floor_scaled m e k in
  let d_hi := d_lo + 1 in
  let ok_lo := reads_back m e d_lo k in
  let ok_hi := reads_back m e d_hi k in
  let up :=
    match cmp_dec_bin (2 * d_lo + 1) k (2 * m) e with
    | Lt => true
    | Gt => false
    | Eq => Z.odd d_lo
    end in
  match fuel with
  | O => (d_lo, k)
  | S fuel' =>
      if ok_lo && ok_hi then (if up then d_hi else d_lo, k)
      else if ok_lo then (d_lo, k)
      else if ok_hi then (d_hi, k)
      else shortest_from fuel' (n + 1) m e p
  end.

(** Drop the trailing zeros of [d], counting them into the exponent. *)
Fixpoint strip_zeros (fuel : nat) (d k : Z) : Z * Z :=
  match fuel with
  | O => (d, k)
  | S fuel' =>
      if (d mod 10 =? 0) && (0 <? d) then strip_zeros fuel' (d / 10) (k + 1)
      else (d, k)
  end.

Definition exponent_text (x : Z) : string :=
  let a := digits (Z.abs x) in
  append (if x <? 0 then "e-" else "e+")
         (if Z.abs x <? 10 then String "0" a else a).

(** [float_repr_style = 'short'], format code ['r']: fixed notation while
    the decimal point position is in [-3 .. 16], scientific otherwise. *)
Definition format_short (ds : string) (decpt : Z) : string :=
  let nd := Z.of_nat (String.length ds) in
  if (decpt <=? -4) || (16 <? decpt) then
    append (substring 0 1 ds)
      (append (if 1 <? nd then String "." (substring 1 (String.length ds - 1) ds)
               else EmptyString)
         (exponent_text (decpt - 1)))
  else if decpt <=? 0 then
    append "0." (append (zeros (Z.to_nat (- decpt))) ds)
  else if nd <=? decpt then
    append ds (append (zeros (Z.to_nat (decpt - nd))) ".0")
  else
    append (substring 0 (Z.to_nat decpt) ds)
      (String "." (substring (Z.to_nat decpt) (String.length ds - Z.to_nat decpt) ds)).

Definition float_repr (x : float) : string :=
  match Prim2SF x with
  | S754_nan => "nan"
  | S754_infinity s => if s then "-inf" else "inf"
  | S754_zero s => if s then "-0.0" else "0.0"
  | S754_finite s m e =>
      let p := decpt_of (Z.pos m) e in
      let '(d, k) := shortest_from 17 1 (Z.pos m) e p in
      let '(d, k) := strip_zeros 20 d k in
      let ds := digits d in
      let decpt := k + Z.of_nat (String.length ds) in
      append (if s then "-" else "") (format_short ds decpt)
  end%string.

End PyFloat.

(** ** The methods of [Kml] *)

Section Kml.

Context {lib : Library}.

(** [math.sin] and [math.cos] raise [ValueError] at an infinity;
    [math.atan2] is total. *)
Definition math_sin (x : float) : result float :=
  if is_infinity x then Raise ValueError else Ret (libm_sin x).

Definition math_cos (x : float) : result float :=
  if is_infinity x then Raise ValueError else Ret (libm_cos x).

Definition math_atan2 (y x : float) : float := libm_atan2 y x.

(** [Kml._distance_between_placemarks]: the haversine formula on a sphere
    of radius 6378.137 km, in meters.  The literal 6378.137 is read as the
    nearest binary64 float, as Python reads it. *)
#[warnings="-inexact-float"]
Definition _distance_between_placemarks (lat1 lon1 lat2 lon2 : float)
  : result float :=
  let radius := 6378.137 in
  let d_lat := lat2 * math_pi / 180 - lat1 * math_pi / 180 in
  let d_lon := lon2 * math_pi / 180 - lon1 * math_pi / 180 in
  let* sin_lat_l := math_sin (d_lat / 2) in
  let* sin_lat_r := math_sin (d_lat / 2) in
  let* cos_1 := math_cos (lat1 * math_pi / 180) in
  let* cos_2 := math_cos (lat2 * math_pi / 180) in
  let* sin_lon_l := math_sin (d_lon / 2) in
  let* sin_lon_r := math_sin (d_lon / 2) in
  let a := sin_lat_l * sin_lat_r + cos_1 * cos_2 * sin_lon_l * sin_lon_r in
  let* sqrt_a := math_sqrt a in
  let* sqrt_1a := math_sqrt (1 - a) in
  let c := 2 * math_atan2 sqrt_a sqrt_1a in
  let d := radius * c in
  Ret (d * 1000).

(** The distance the filter computes between a candidate and a kept
    record. *)
Definition distance (my_coord kept_coord : placemark) : result float :=
  _distance_between_placemarks
    (Latitude my_coord) (Longitude my_coord)
    (Latitude kept_coord) (Longitude kept_coord).

(** *** [_filter_placemarks] *)

(** The inner loop of [_filter_placemarks] over [kept_coords]: the value
    of [my_coord["Export"]] when the loop ends (it starts [True]; the first
    kept record closer than the threshold sets it [False] and breaks). *)
Fixpoint scan_kept (min_distance : float) (my_coord : placemark)
    (kept_coords : list placemark) : result bool :=
  match kept_coords with
  | [] => Ret true
  | kept_coord :: kept_coords' =>
      let* d := distance my_coord kept_coord in
      if d <? min_distance then Ret false
      else scan_kept min_distance my_coord kept_coords'
  end.

(** The outer loop, from a given [kept_coords] and [export_count] on.  It
    returns the records as the loop leaves them and [export_count], or the
    exception that escaped; then the current record already carries
    [Export = True] and the later ones are untouched. *)
Fixpoint filter_loop (min_distance : float) (kept_coords : list placemark)
    (export_count : nat) (placemark_list : list placemark)
  : list placemark * result nat :=
  match placemark_list with
  | [] => ([], Ret export_count)
  | my_coord :: rest =>
      let my_coord := set_Export my_coord true in
      match scan_kept min_distance my_coord kept_coords with
      | Raise e => (my_coord :: rest, Raise e)
      | Ret false =>
          let '(rest', r) :=
            filter_loop min_distance kept_coords export_count rest in
          (set_Export my_coord false :: rest', r)
      | Ret true =>
          let '(rest', r) :=
            filter_loop min_distance (kept_coords ++ [my_coord])
              (S export_count) rest in
          (my_coord :: rest', r)
      end
  end.

(** [Kml._filter_placemarks], with the instance's
    [min_distance_between_placemarks_in_meters] and [_placemark_list]
    passed in.  The threshold is a float here; Python compares the float
    distance with an [int] threshold by value, which agrees with the
    comparison of floats for every integer a float holds exactly. *)
Definition _filter_placemarks (min_distance : float)
    (placemark_list : list placemark) : list placemark * result nat :=
  filter_loop min_distance [] 0%nat placemark_list.

(** *** [_reorder_placemarks] *)

(** Python's built-in [sorted(iterable, key=...)]: it returns a new list, is
    stable, and compares keys with [<] only.  It is modelled by a stable
    insertion sort (each record is put before the first record whose key is
    not below its own); when [<] is a strict weak order on the keys, every
    stable sort computes this list. *)
Fixpoint insert_sorted {A K : Type} (lt : K -> K -> bool) (key : A -> K)
    (x : A) (l : list A) : list A :=
  match l with
  | [] => [x]
  | y :: l' =>
      if lt (key y) (key x) then y :: insert_sorted lt key x l' else x :: l
  end.

Fixpoint sorted {A K : Type} (lt : K -> K -> bool) (key : A -> K)
    (l : list A) : list A :=
  match l with
  | [] => []
  | x :: l' => insert_sorted lt key x (sorted lt key l')
  end.

(** [lambda i: (i["Folder"], i["Latitude"])] *)
Definition sort_key (i : placemark) : string * float :=
  (Folder i, Latitude i).

(** [<] on the key tuples: the first components that differ decide; equal
    tuples are not below each other.  Strings compare by code point, which
    is the order of their UTF-8 bytes. *)
Definition key_lt (a b : string * float) : bool :=
  if negb (fst a =? fst b)%string then String.ltb (fst a) (fst b)
  else if negb (snd a =? snd b) then snd a <? snd b
  else false.

(** [==] on the key tuples. *)
Definition key_eqb (a b : string * float) : bool :=
  (fst a =? fst b)%string && (snd a =? snd b).

(** [Kml._reorder_placemarks]: binds [_placemark_list] to the sorted list
    and runs the filter on it; the count that the filter returns is
    dropped. *)
Definition _reorder_placemarks (min_distance : float)
    (placemark_list : list placemark) : list placemark * result unit :=
  let placemark_list := sorted key_lt sort_key placemark_list in
  let '(placemark_list, r) := _filter_placemarks min_distance placemark_list in
  (placemark_list, let* _ := r in Ret tt).

(** *** The document tree *)

(** [ET.SubElement(parent, tag)] followed by [.text = t], as a leaf. *)
Definition text_element (tag t : string) : Element :=
  Elem tag [] (Some t) [].

(** The [Placemark] element of an exported record: [name] and
    [description] from the two parts of a non-empty ["Name"], and always a
    [Point] whose [coordinates] text is [str(Longitude) + "," +
    str(Latitude)]. *)
Definition coordinates_text (my_coord : placemark) : string :=
  (PyFloat.float_repr (Longitude my_coord) ++ ","
   ++ PyFloat.float_repr (Latitude my_coord))%string.

Definition Placemark_element (my_coord : placemark) : Element :=
  Elem "Placemark" [] None
    ((if negb (Name my_coord =? "")%string then
        let '(file_path, file_name) := os_path_split (Name my_coord) in
        [text_element "name" file_name; text_element "description" file_path]
      else [])
     ++ [Elem "Point" [] None
           [text_element "coordinates" (coordinates_text my_coord)]]).

(** A [Folder] element: its [name] and the placemarks appended to it. *)
Definition Folder_element (name : string) (placemarks : list Element)
  : Element :=
  Elem "Folder" [] None (text_element "name" name :: placemarks).

(** The variables of the loop of [_get_kml_string].  [folder] is the last
    [Folder] created under [document]; the model keeps the placemarks
    appended to it apart from the folders created before it ([document])
    and attaches it when the walk ends. *)
Record walk : Set := mk_walk {
    document : list Element;
    folder_name_text : string;
    folder : list Element;
    nb_files_to_export : nat
  }.

(** One iteration of [for my_coord in self._placemark_list].  A record
    without the key ["Export"] raises [KeyError]. *)
Definition visit (w : walk) (my_coord : placemark) : result walk :=
  let w :=
    if negb (Folder my_coord =? folder_name_text w)%string then
      {| document :=
           document w ++ [Folder_element (folder_name_text w) (folder w)];
         folder_name_text := Folder my_coord;
         folder := [];
         nb_files_to_export := nb_files_to_export w |}
    else w in
  match Export my_coord with
  | None => Raise KeyError
  | Some true =>
      Ret {| document := document w;
             folder_name_text := folder_name_text w;
             folder := folder w ++ [Placemark_element my_coord];
             nb_files_to_export := S (nb_files_to_export w) |}
  | Some false => Ret w
  end.

Fixpoint visit_all (w : walk) (placemark_list : list placemark)
  : result walk :=
  match placemark_list with
  | [] => Ret w
  | my_coord :: rest => let* w' := visit w my_coord in visit_all w' rest
  end.

(** The [Folder] elements of the finished walk, in document order. *)
Definition folders_of (w : walk) : list Element :=
  document w ++ [Folder_element (folder_name_text w) (folder w)].

(** The first part of [Kml._get_kml_string], up to the finished tree: the
    list it leaves in [_placemark_list], and the root element with
    [nb_files_to_export], or the exception that escaped.
    [self._placemark_list[0]] raises [IndexError] on an empty list. *)
Definition _get_kml_tree (map_name map_description : string)
    (min_distance : float) (placemark_list : list placemark)
  : list placemark * result (Element * nat) :=
  let '(placemark_list, r) :=
    _reorder_placemarks min_distance placemark_list in
  (placemark_list,
   let* _ := r in
   match placemark_list with
   | [] => Raise IndexError
   | first :: _ =>
       let* w :=
         visit_all {| document := []; folder_name_text := Folder first;
                      folder := []; nb_files_to_export := 0 |}
           placemark_list in
       Ret (Elem "kml" [("xmlns", "http://www.opengis.net/kml/2.2")] None
              [Elem "Document" [] None
                 (text_element "name" map_name
                  :: text_element "description" map_description
                  :: folders_of w)],
            nb_files_to_export w)
   end).

(** [Kml._get_kml_string]: the tree serialized and pretty-printed; a
    [ValueError] or [TypeError] of the pretty-printer is caught and the
    plain serialization returned. *)
Definition _get_kml_string (map_name map_description : string)
    (min_distance : float) (placemark_list : list placemark)
  : list placemark * result string :=
  let '(placemark_list, r) :=
    _get_kml_tree map_name map_description min_distance placemark_list in
  (placemark_list,
   let* tree := r in
   let root := fst tree in
   let xml_string := ET_tostring root in
   match minidom_toprettyxml xml_string with
   | Ret pretty => Ret pretty
   | Raise e =>
       if isinstance_ValueError e || isinstance_TypeError e
       then Ret xml_string
       else Raise e
   end).

(** *** [save_kml_file] *)

(** [Kml.save_kml_file]: the string is built outside the [try]; the [try]
    catches [(IOError, OSError)] only. *)
Definition save_kml_file (map_name map_description : string)
    (min_distance : float) (placemark_list : list placemark) (path : string)
  : list placemark * result bool :=
  let '(placemark_list, r) :=
    _get_kml_string map_name map_description min_distance placemark_list in
  (placemark_list,
   let* kml_string := r in
   match write_file path kml_string with
   | None => Ret true
   | Some e => if isinstance_OSError e then Ret false else Raise e
   end).

(** *** Notions used in the statements *)

(** [far T c k]: the distance from the candidate [c] to the kept record [k]
    is computed and is not below [T]. *)
Definition far (T : float) (c k : placemark) : Prop :=
  exists d, distance c k = Ret d /\ (d <? T) = false.

(** [may_precede a b]: the key of [b] is not below the key of [a]. *)
Definition may_precede (a b : placemark) : Prop :=
  key_lt (sort_key b) (sort_key a) = false.

Definition numeric (c : placemark) : Prop := is_nan (Latitude c) = false.

Definition folder_ascending (a b : placemark) : Prop :=
  String.ltb (Folder b) (Folder a) = false.

(** The [Placemark] that a record contributes: one if it is exported. *)
Definition emitted (c : placemark) : list Element :=
  if exported c then [Placemark_element c] else [].

(** The folders that the walk produces from a current label, the placemarks
    already appended to the current folder and the records still to visit,
    by direct recursion: a record whose folder differs from the label closes
    the current folder and opens the next. *)
Fixpoint group (cur : string) (pms : list Element) (l : list placemark)
  : list Element :=
  match l with
  | [] => [Folder_element cur pms]
  | c :: l' =>
      if negb (Folder c =? cur)%string
      then Folder_element cur pms :: group (Folder c) (emitted c) l'
      else group cur (pms ++ emitted c) l'
  end.

(** The placemarks of a folder element, and all of them in document
    order. *)
Definition placemarks_in (F : Element) : list Element :=
  List.filter (fun x => (tag_of x =? "Placemark")%string) (children_of F).

Definition all_placemarks (folders : list Element) : list Element :=
  concat (map placemarks_in folders).

(** The records of folder [f] that are exported. *)
Definition members (f : string) (l : list placemark) : list placemark :=
  List.filter (fun c => exported c && (Folder c =? f)%string) l.

(** The [Folder] element of the folder value [f] of the store [l]. *)
Definition folder_of (l : list placemark) (f : string) : Element :=
  Folder_element f (map Placemark_element (members f l)).

(** The root element around the folders. *)
Definition kml_root (map_name map_description : string)
    (folders : list Element) : Element :=
  Elem "kml" [("xmlns", "http://www.opengis.net/kml/2.2")] None
    [Elem "Document" [] None
       (text_element "name" map_name
        :: text_element "description" map_description :: folders)].

(** The [Folder] elements of a root element. *)
Definition folders_in (root : Element) : list Element :=
  match children_of root with
  | doc :: _ =>
      List.filter (fun x => (tag_of x =? "Folder")%string) (children_of doc)
  | [] => []
  end.

(** The text of the [coordinates] element under the [Point] of a
    placemark element. *)
Definition find_child (t : string) (x : Element) : option Element :=
  List.find (fun y => (tag_of y =? t)%string) (children_of x).

Definition point_coordinates (P : Element) : option string :=
  match find_child "Point" P with
  | Some point =>
      match find_child "coordinates" point with
      | Some coordinates => text_of coordinates
      | None => None
      end
  | None => None
  end.

End Kml.

(** ** The methods on the heap *)

(** The methods above take the records of [self._placemark_list] as a list
    of values.  On the heap the lists hold references to dict objects:
    [sorted] builds a new list of the same dicts, the assignment in
    [_reorder_placemarks] binds it as an attribute of the instance, and
    [_filter_placemarks] writes ["Export"] into the dicts themselves. *)
Module Heap.

(** The dict objects by address, the next free address, the content of the
    list object of the class attribute [Kml._placemark_list], and the list
    of each instance that has an attribute [_placemark_list] of its own. *)
Record heap : Type := mk_heap {
    dict : nat -> placemark;
    next_dict : nat;
    Kml_placemark_list : list nat;
    own_placemark_list : gmap nat (list nat)
  }.

(** The heap after the [class] statement. *)
Definition class_defined : heap :=
  {| dict := fun _ => mk_placemark 0 0 "" "" None;
     next_dict := 0;
     Kml_placemark_list := [];
     own_placemark_list := ∅ |}.

(** [d[i] = c] *)
Definition store (d : nat -> placemark) (i : nat) (c : placemark)
  : nat -> placemark :=
  fun j => if Nat.eqb j i then c else d j.

(** [self._placemark_list]: the attribute of the instance if it has one,
    the class attribute otherwise. *)
Definition placemark_list_of (h : heap) (self : nat) : list nat :=
  match own_placemark_list h !! self with
  | Some l => l
  | None => Kml_placemark_list h
  end.

(** The records that [self._placemark_list] refers to. *)
Definition view (h : heap) (self : nat) : list placemark :=
  map (dict h) (placemark_list_of h self).

(** [Kml._add_placemark]: a new dict, appended to the list object that
    [self._placemark_list] evaluates to. *)
Definition _add_placemark (h : heap) (self : nat)
    (latitude longitude : float) (name folder : string) : heap :=
  let new := next_dict h in
  let d := store (dict h) new
             {| Latitude := latitude; Longitude := longitude;
                Name := name; Folder := folder; Export := None |} in
  match own_placemark_list h !! self with
  | Some l =>
      {| dict := d; next_dict := S new;
         Kml_placemark_list := Kml_placemark_list h;
         own_placemark_list := <[self := l ++ [new]]> (own_placemark_list h) |}
  | None =>
      {| dict := d; next_dict := S new;
         Kml_placemark_list := Kml_placemark_list h ++ [new];
         own_placemark_list := own_placemark_list h |}
  end.

Section Methods.

Context {lib : Library}.

(** The outer loop of [_filter_placemarks] on references: the dicts as the
    loop leaves them, and [export_count] or the exception. *)
Fixpoint filter_refs (min_distance : float) (kept_coords : list nat)
    (export_count : nat) (placemark_list : list nat) (d : nat -> placemark)
  : (nat -> placemark) * result nat :=
  match placemark_list with
  | [] => (d, Ret export_count)
  | my_coord :: rest =>
      let d := store d my_coord (set_Export (d my_coord) true) in
      match scan_kept min_distance (d my_coord) (map d kept_coords) with
      | Raise e => (d, Raise e)
      | Ret false =>
          filter_refs min_distance kept_coords export_count rest
            (store d my_coord (set_Export (d my_coord) false))
      | Ret true =>
          filter_refs min_distance (kept_coords ++ [my_coord])
            (S export_count) rest d
      end
  end.

(** [Kml._filter_placemarks] *)
Definition _filter_placemarks (min_distance : float) (h : heap) (self : nat)
  : heap * result nat :=
  let '(d, r) :=
    filter_refs min_distance [] 0%nat (placemark_list_of h self) (dict h) in
  ({| dict := d; next_dict := next_dict h;
      Kml_placemark_list := Kml_placemark_list h;
      own_placemark_list := own_placemark_list h |}, r).

(** [Kml._reorder_placemarks]: the assignment gives the instance a list of
    its own. *)
Definition _reorder_placemarks (min_distance : float) (h : heap)
    (self : nat) : heap * result unit :=
  let l :=
    sorted key_lt (fun i => sort_key (dict h i)) (placemark_list_of h self) in
  let h :=
    {| dict := dict h; next_dict := next_dict h;
       Kml_placemark_list := Kml_placemark_list h;
       own_placemark_list := <[self := l]> (own_placemark_list h) |} in
  let '(h, r) := _filter_placemarks min_distance h self in
  (h, let* _ := r in Ret tt).

End Methods.

(** Whether [a._placemark_list] and [b._placemark_list] evaluate to the
    same list object: both to the list of the class, or [a] is [b]. *)
Definition shares_list (h : heap) (a b : nat) : bool :=
  match own_placemark_list h !! a, own_placemark_list h !! b with
  | None, None => true
  | _, _ => Nat.eqb a b
  end.

(** A heap as the methods build it: no list holds a dict twice, and every
    reference is to a dict that exists. *)
Definition well_formed (h : heap) : Prop :=
  forall self,
    NoDup (placemark_list_of h self) /\
    Forall (fun i => (i < next_dict h)%nat) (placemark_list_of h self).

End Heap.

(** ** Scanning a folder *)

(** [scan_folder] and [_convert_to_degress] meet three exception classes
    more than the methods above: an outcome of the scan is a value or one
    of the exceptions of [exception] or of these three. *)
Inductive scan_exception : Set :=
  | Builtin (e : exception)
  | AttributeError
  | ZeroDivisionError
  | OverflowError.

Inductive outcome (A : Type) : Type :=
  | Returns (a : A)
  | Raises (e : scan_exception).

Arguments Returns {A} a.
Arguments Raises {A} e.

Definition and_then {A B : Type} (r : outcome A) (k : A -> outcome B)
  : outcome B :=
  match r with
  | Returns a => k a
  | Raises e => Raises e
  end.

Notation "'let+' x ':=' r 'in' k" := (and_then r (fun x => k))
  (at level 10, x pattern, r at level 100, k at level 200) : result_scope.

(** [except (IOError, OSError)] and
    [except (KeyError, AttributeError, IndexError)]. *)
Definition caught_reading (e : scan_exception) : bool :=
  match e with
  | Builtin e => isinstance_OSError e
  | _ => false
  end.

Definition caught_extracting (e : scan_exception) : bool :=
  match e with
  | Builtin KeyError | Builtin IndexError | AttributeError => true
  | _ => false
  end.

(** A [pathlib.Path] as the scan sees it: [str(p)] and [p.name]. *)
Record Path : Set := mk_Path {
    path_str : string;
    path_name : string
  }.

(** The [values] of an [exifread] tag: a [str] for an ASCII tag, a list for
    the numeric ones, whose items are [Ratio] objects (with [num] and
    [den]) or plain integers. *)
Inductive item : Set :=
  | Ratio (num den : Z)
  | Int (n : Z)
  | Text (s : string).

Inductive tag_values : Set :=
  | Str (s : string)
  | Items (l : list item).

(** The library functions of the scan: [Path(folder).glob(pattern)], and
    [exifread.process_file(open(path, "rb"))], which gives the dict of the
    tags of a file or raises. *)
Class FileSystem : Type := {
    glob : string -> string -> outcome (list Path);
    process_file : string -> outcome (gmap string tag_values)
  }.

(** [tags[key]] *)
Definition getitem_tags (tags : gmap string tag_values) (key : string)
  : outcome tag_values :=
  match tags !! key with
  | Some v => Returns v
  | None => Raises (Builtin KeyError)
  end.

(** [values[i]]: the character at [i] of a [str], the item at [i] of a
    list; [IndexError] outside. *)
Definition getitem_values (v : tag_values) (i : nat) : outcome item :=
  match v with
  | Str s =>
      match String.get i s with
      | Some c => Returns (Text (String c EmptyString))
      | None => Raises (Builtin IndexError)
      end
  | Items l =>
      match nth_error l i with
      | Some x => Returns x
      | None => Raises (Builtin IndexError)
      end
  end.

(** [x.num] and [x.den]: only a [Ratio] has them. *)
Definition attr_num (x : item) : outcome Z :=
  match x with
  | Ratio num _ => Returns num
  | _ => Raises AttributeError
  end.

Definition attr_den (x : item) : outcome Z :=
  match x with
  | Ratio _ den => Returns den
  | _ => Raises AttributeError
  end.

(** [float(n)] of an [int]: the nearest float, ties to even;
    [OverflowError] when that is no finite float. *)
Definition float_of_int (n : Z) : outcome float :=
  let x := SF2Prim (SpecFloat.binary_normalize prec emax n 0 false) in
  if is_infinity x then Raises OverflowError else Returns x.

(** [a / b] on floats: [ZeroDivisionError] when [b] is a zero. *)
Definition truediv (a b : float) : outcome float :=
  if b =? 0 then Raises ZeroDivisionError else Returns (a / b).

(** [x != "N"]: an item that is no [str] differs from every [str]. *)
Definition ne_str (x : item) (s : string) : bool :=
  match x with
  | Text t => negb (t =? s)%string
  | _ => true
  end.

(** [float(ratio.values[i].num) / float(ratio.values[i].den)] *)
Definition ratio_to_float (values : tag_values) (i : nat) : outcome float :=
  let+ x := getitem_values values i in
  let+ num := attr_num x in
  let+ num := float_of_int num in
  let+ y := getitem_values values i in
  let+ den := attr_den y in
  let+ den := float_of_int den in
  truediv num den.

(** [Kml._convert_to_degress], on the [values] of the tag. *)
Definition _convert_to_degress (values : tag_values) : outcome float :=
  let+ d := ratio_to_float values 0 in
  let+ m := ratio_to_float values 1 in
  let+ s := ratio_to_float values 2 in
  Returns (d + (m / 60.0) + (s / 3600.0)).

(** The statements of the second [try] of [scan_folder] up to the call of
    [_add_placemark]: the latitude and the longitude of the tags. *)
Definition gps_of_tags (tags : gmap string tag_values)
  : outcome (float * float) :=
  let+ v := getitem_tags tags "GPS GPSLatitude" in
  let+ my_lat := _convert_to_degress v in
  let+ v := getitem_tags tags "GPS GPSLatitudeRef" in
  let+ ref := getitem_values v 0 in
  let my_lat := if ne_str ref "N" then - my_lat else my_lat in
  let+ v := getitem_tags tags "GPS GPSLongitude" in
  let+ my_lon := _convert_to_degress v in
  let+ v := getitem_tags tags "GPS GPSLongitudeRef" in
  let+ ref := getitem_values v 0 in
  let my_lon := if ne_str ref "E" then - my_lon else my_lon in
  Returns (my_lat, my_lon).

(** [Kml._add_placemark], on the list that [self._placemark_list]
    evaluates to. *)
Definition add_placemark (placemark_list : list placemark)
    (latitude longitude : float) (name folder : string) : list placemark :=
  placemark_list
  ++ [{| Latitude := latitude; Longitude := longitude;
         Name := name; Folder := folder; Export := None |}].

Section Scan.

Context {fs : FileSystem}.

Definition file_types : list string := ["*.jpg"; "*.jpeg"; "*.dng"].

(** [for file_type in file_types: file_list.extend(base_folder.glob("**/" +
    file_type))] *)
Fixpoint extend_file_list (folder : string) (file_types : list string)
    (file_list : list Path) : outcome (list Path) :=
  match file_types with
  | [] => Returns file_list
  | file_type :: file_types' =>
      let+ found := glob folder ("**/" ++ file_type) in
      extend_file_list folder file_types' (file_list ++ found)
  end.

(** [[f for f in file_list if not f.name.startswith("._")]] *)
Definition visible (f : Path) : bool :=
  negb (String.prefix "._" (path_name f)).

(** The loop over [file_list]: the list after the loop and [nb_files], or
    the exception that escaped, with the list as it was then. *)
Fixpoint scan_files (folder : string) (file_list : list Path)
    (nb_files : nat) (placemark_list : list placemark)
  : list placemark * outcome nat :=
  match file_list with
  | [] => (placemark_list, Returns nb_files)
  | my_file :: rest =>
      match process_file (path_str my_file) with
      | Raises e =>
          if caught_reading e
          then scan_files folder rest nb_files placemark_list
          else (placemark_list, Raises e)
      | Returns tags =>
          match gps_of_tags tags with
          | Returns (my_lat, my_lon) =>
              scan_files folder rest (S nb_files)
                (add_placemark placemark_list my_lat my_lon
                   (path_str my_file) folder)
          | Raises e =>
              if caught_extracting e
              then scan_files folder rest nb_files placemark_list
              else (placemark_list, Raises e)
          end
      end
  end.

(** [Kml.scan_folder] *)
Definition scan_folder (folder : string) (placemark_list : list placemark)
  : list placemark * outcome nat :=
  match extend_file_list folder file_types [] with
  | Raises e => (placemark_list, Raises e)
  | Returns file_list =>
      let file_list := List.filter visible file_list in
      scan_files folder file_list 0%nat placemark_list
  end.

(** *** Notions used in the statements *)

(** The record that the scan appends for a file, if it appends one. *)
Definition placemark_of (folder : string) (my_file : Path)
  : option placemark :=
  match process_file (path_str my_file) with
  | Returns tags =>
      match gps_of_tags tags with
      | Returns (my_lat, my_lon) =>
          Some {| Latitude := my_lat; Longitude := my_lon;
                  Name := path_str my_file; Folder := folder;
                  Export := None |}
      | Raises _ => None
      end
  | Raises _ => None
  end.

(** The exception that a file makes the scan raise, if it does. *)
Definition escapes (my_file : Path) : option scan_exception :=
  match process_file (path_str my_file) with
  | Raises e => if caught_reading e then None else Some e
  | Returns tags =>
      match gps_of_tags tags with
      | Raises e => if caught_extracting e then None else Some e
      | Returns _ => None
      end
  end.

(** The exceptions that the extraction of the coordinates can raise. *)
Definition of_extraction (e : scan_exception) : Prop :=
  e = Builtin KeyError \/ e = Builtin IndexError \/ e = AttributeError \/
  e = ZeroDivisionError \/ e = OverflowError.

End Scan.

(** ** The class [KML] of [KML.py] *)

(** [KML.py] holds an earlier version of the class.  Its
    [_ReorderPlacemarks], [_FilterPlacemarks], [_DistanceBetweenPlacemarks],
    [_convert_to_degress], [_AddPlacemark] and the loop of
    [_GetKMLString] are the statements of [kml.py] under other names; the
    scan and the two [try] statements of the export differ: they catch
    [Exception], which every exception modelled here is, and the scan does
    not [continue] after a file it could not read. *)
Module Legacy.

Section Methods.

Context {lib : Library} {fs : FileSystem}.

(** The loop of [KML.ScanFolder].  [tags] is the local variable, [None]
    while it is unbound: a file that cannot be read leaves it as it was,
    and reading it while unbound raises [UnboundLocalError] inside the
    second [try]. *)
Fixpoint scan_files (folder : string) (file_list : list Path)
    (tags : option (gmap string tag_values)) (nb_files : nat)
    (placemark_list : list placemark) : list placemark * nat :=
  match file_list with
  | [] => (placemark_list, nb_files)
  | my_file :: rest =>
      let tags :=
        match process_file (path_str my_file) with
        | Returns t => Some t
        | Raises _ => tags
        end in
      match tags with
      | None => scan_files folder rest tags nb_files placemark_list
      | Some t =>
          match gps_of_tags t with
          | Returns (my_lat, my_lon) =>
              scan_files folder rest tags (S nb_files)
                (add_placemark placemark_list my_lat my_lon
                   (path_str my_file) folder)
          | Raises _ => scan_files folder rest tags nb_files placemark_list
          end
      end
  end.

(** [KML.ScanFolder]: every listed file is scanned. *)
Definition ScanFolder (folder : string) (placemark_list : list placemark)
  : list placemark * outcome nat :=
  match extend_file_list folder file_types [] with
  | Raises e => (placemark_list, Raises e)
  | Returns file_list =>
      let '(placemark_list, nb_files) :=
        scan_files folder file_list None 0%nat placemark_list in
      (placemark_list, Returns nb_files)
  end.

(** [KML._GetKMLString]: any exception of the pretty-printer is caught. *)
Definition _GetKMLString (map_name map_description : string)
    (min_distance : float) (placemark_list : list placemark)
  : list placemark * result string :=
  let '(placemark_list, r) :=
    _get_kml_tree map_name map_description min_distance placemark_list in
  (placemark_list,
   let* tree := r in
   let root := fst tree in
   let xml_string := ET_tostring root in
   match minidom_toprettyxml xml_string with
   | Ret pretty => Ret pretty
   | Raise _ => Ret xml_string
   end).

(** [KML.SaveKMLFile]: the string is built outside the [try]; any
    exception of the write is caught. *)
Definition SaveKMLFile (map_name map_description : string)
    (min_distance : float) (placemark_list : list placemark) (path : string)
  : list placemark * result bool :=
  let '(placemark_list, r) :=
    _GetKMLString map_name map_description min_distance placemark_list in
  (placemark_list,
   let* kml_string := r in
   match write_file path kml_string with
   | None => Ret true
   | Some _ => Ret false
   end).

End Methods.

End Legacy.

(** ** Sample data *)

(** Stand-ins for the library code in the concrete runs: the first terms of
    the series of [sin] and [cos], and [y / x] for [atan2], close to the C
    library for the nearby points used below; [os.path.split] on names
    without a directory part; a serializer without layout; a pretty-printer
    that returns its input; a file system in which ["/missing"] does not
    exist, and one that cannot encode the text. *)
Definition series_sin (x : float) : float := x - x * x * x / 6.

Definition series_cos (x : float) : float := 1 - x * x / 2.

Definition series_atan2 (y x : float) : float := y / x.

Definition plain_split (p : string) : string * string := ("", p).

Fixpoint to_xml (x : Element) : string :=
  match x with
  | Elem t _ txt children =>
      ("<" ++ t ++ ">"
       ++ match txt with Some s => s | None => "" end
       ++ (fix all (l : list Element) : string :=
             match l with
             | [] => ""
             | y :: l' => to_xml y ++ all l'
             end) children
       ++ "</" ++ t ++ ">")%string
  end.

Definition same_text (s : string) : result string := Ret s.

Definition disk (path kml_string : string) : option exception :=
  if String.prefix "/missing/" path then Some FileNotFoundError else None.

Definition unencodable (path kml_string : string) : option exception :=
  Some UnicodeEncodeError.

Definition sample : Library :=
  {| libm_sin := series_sin;
     libm_cos := series_cos;
     libm_atan2 := series_atan2;
     os_path_split := plain_split;
     ET_tostring := to_xml;
     minidom_toprettyxml := same_text;
     write_file := disk |}.

Definition sample_unencodable : Library :=
  {| libm_sin := series_sin;
     libm_cos := series_cos;
     libm_atan2 := series_atan2;
     os_path_split := plain_split;
     ET_tostring := to_xml;
     minidom_toprettyxml := same_text;
     write_file := unencodable |}.

(** Three records of one folder: the second about 1.7 m north of the
    first, the third about 14 km. *)
Definition three_close : list placemark :=
  [ mk_placemark 45 (-73.5) "p1.jpg" "/folder" None;
    mk_placemark 45.0000152587890625 (-73.5) "p2.jpg" "/folder" None;
    mk_placemark 45.125 (-73.5) "p3.jpg" "/folder" None ].

(** The records of [test_reorder_placemarks_by_folder_and_latitude]. *)
Definition four_unsorted : list placemark :=
  [ mk_placemark 46 (-73.5) "Point3" "/folderB" None;
    mk_placemark 45 (-73.5) "Point1" "/folderA" None;
    mk_placemark 47 (-73.5) "Point4" "/folderB" None;
    mk_placemark 45.5 (-73.5) "Point2" "/folderA" None ].

(** Two records at one place, in two folders. *)
Definition two_folders : list placemark :=
  [ mk_placemark 45 (-73.5) "a.jpg" "/a" None;
    mk_placemark 45 (-73.5) "b.jpg" "/b" None ].

(** The distance between the first two records of [three_close]. *)
Definition second_to_first : float :=
  match _distance_between_placemarks (lib := sample)
          45.0000152587890625 (-73.5) 45 (-73.5) with
  | Ret d => d
  | Raise _ => 0
  end.

(** The tags of a photo with both coordinates. *)
Definition gps_tags (lat : list item) (lat_ref : string)
    (lon : list item) (lon_ref : string) : gmap string tag_values :=
  <["GPS GPSLatitude" := Items lat]>
    (<["GPS GPSLatitudeRef" := Str lat_ref]>
       (<["GPS GPSLongitude" := Items lon]>
          (<["GPS GPSLongitudeRef" := Str lon_ref]> ∅))).

(** A file system with two folders.  ["/photos"] holds a photo at
    45°30'N 73°30'W, its resource fork [._a.jpg], a file that cannot be
    opened, a scan without GPS tags and a raw file at 45°7'30''N 73°30'W;
    ["/nofix"] holds a photo with coordinates, one whose receiver had no
    fix (rationals 0/0) and a third photo. *)
Definition photos_glob (folder pattern : string) : outcome (list Path) :=
  if (folder =? "/photos")%string then
    if (pattern =? "**/*.jpg")%string then
      Returns [mk_Path "/photos/a.jpg" "a.jpg";
               mk_Path "/photos/._a.jpg" "._a.jpg";
               mk_Path "/photos/locked.jpg" "locked.jpg"]
    else if (pattern =? "**/*.jpeg")%string then
      Returns [mk_Path "/photos/scan.jpeg" "scan.jpeg"]
    else if (pattern =? "**/*.dng")%string then
      Returns [mk_Path "/photos/raw/b.dng" "b.dng"]
    else Returns []
  else if (folder =? "/nofix")%string then
    if (pattern =? "**/*.jpg")%string then
      Returns [mk_Path "/nofix/first.jpg" "first.jpg";
               mk_Path "/nofix/nofix.jpg" "nofix.jpg";
               mk_Path "/nofix/last.jpg" "last.jpg"]
    else Returns []
  else Returns [].

Definition montreal : gmap string tag_values :=
  gps_tags [Ratio 45 1; Ratio 30 1; Ratio 0 1] "N"
           [Ratio 73 1; Ratio 30 1; Ratio 0 1] "W".

Definition photos_process_file (path : string)
  : outcome (gmap string tag_values) :=
  if (path =? "/photos/a.jpg")%string then Returns montreal
  else if (path =? "/photos/._a.jpg")%string then
    Raises (Builtin ValueError)
  else if (path =? "/photos/locked.jpg")%string then
    Raises (Builtin PermissionError)
  else if (path =? "/photos/scan.jpeg")%string then Returns ∅
  else if (path =? "/photos/raw/b.dng")%string then
    Returns (gps_tags [Ratio 45 1; Ratio 7 1; Ratio 30 1] "N"
                      [Ratio 73 1; Ratio 30 1; Ratio 0 1] "W")
  else if (path =? "/nofix/first.jpg")%string then Returns montreal
  else if (path =? "/nofix/nofix.jpg")%string then
    Returns (gps_tags [Ratio 0 0; Ratio 0 0; Ratio 0 0] "N"
                      [Ratio 0 0; Ratio 0 0; Ratio 0 0] "E")
  else if (path =? "/nofix/last.jpg")%string then Returns montreal
  else Raises (Builtin FileNotFoundError).

Definition photos : FileSystem :=
  {| glob := photos_glob; process_file := photos_process_file |}.

(** The same file system, in which the resource fork reads as a photo. *)
Definition photos_with_fork : FileSystem :=
  {| glob := photos_glob;
     process_file path :=
       if (path =? "/photos/._a.jpg")%string then Returns montreal
       else photos_process_file path |}.

(** Two records at the same coordinates and a third elsewhere. *)
Definition twice_the_same : list placemark :=
  [ mk_placemark 45.5 (-73.5) "a.jpg" "/photos" None;
    mk_placemark 45.5 (-73.5) "a_copy.jpg" "/photos" None;
    mk_placemark 46 (-73.5) "c.jpg" "/photos" None ].

(** A record whose latitude is infinite, after a plain one. *)
Definition one_infinite : list placemark :=
  [ mk_placemark 45 (-73.5) "a.jpg" "/a" None;
    mk_placemark infinity (-73.5) "b.jpg" "/a" None ].

(** Two records added through the instances 0 and 1, the northern one
    first. *)
Definition two_on_the_heap : Heap.heap :=
  Heap._add_placemark
    (Heap._add_placemark Heap.class_defined 0 46 (-73.5) "b.jpg" "/a")
    1 45 (-73.5) "a.jpg" "/a".

(** ** The rank of a float *)

Module FloatRank.

(** A rank of the values that are not NaN: [SFcompare] is the lexicographic
    comparison of the ranks. *)
Definition rank (x : spec_float) : Z * Z * Z :=
  match x with
  | S754_zero _ => (0, 0, 0)%Z
  | S754_infinity s => (if s then (-2) else 2, 0, 0)%Z
  | S754_nan => (0, 0, 0)%Z
  | S754_finite s m e =>
      if s then (-1, - e, Z.neg m)%Z else (1, e, Z.pos m)%Z
  end.

Definition lex3 (a b : Z * Z * Z) : comparison :=
  let '(a1, a2, a3) := a in
  let '(b1, b2, b3) := b in
  match (a1 ?= b1)%Z with
  | Eq => match (a2 ?= b2)%Z with
          | Eq => (a3 ?= b3)%Z
          | c => c
          end
  | c => c
  end.

Definition is_lt (c : comparison) : bool :=
  match c with Lt => true | _ => false end.

Definition is_eq (c : comparison) : bool :=
  match c with Eq => true | _ => false end.

Definition is_le (c : comparison) : bool :=
  match c with Gt => false | _ => true end.

End FloatRank.

(** * Part II: properties *)

(** ** The order of binary64 floats *)

Module FloatOrder.

Import FloatRank.

Lemma SFcompare_rank (x y : spec_float) :
  x <> S754_nan -> y <> S754_nan ->
  SFcompare x y = Some (lex3 (rank x) (rank y)).
Proof.
  intros Hx Hy.
  destruct x as [sx|sx| |sx mx ex], y as [sy|sy| |sy my ey];
    try congruence; try (destruct sx); try (destruct sy);
    try reflexivity; cbn [SFcompare rank lex3]; f_equal.
  rewrite Z.compare_opp, (Z.compare_antisym ex ey).
  destruct (ex ?= ey)%Z; reflexivity.
Qed.

Lemma lex3_lt_trans a b c : lex3 a b = Lt -> lex3 b c = Lt -> lex3 a c = Lt.
Proof.
  destruct a as [[a1 a2] a3], b as [[b1 b2] b3], c as [[c1 c2] c3].
  unfold lex3.
  destruct (Z.compare_spec a1 b1), (Z.compare_spec b1 c1),
    (Z.compare_spec a2 b2), (Z.compare_spec b2 c2), (Z.compare_spec a1 c1),
    (Z.compare_spec a2 c2); try congruence; try lia;
    rewrite ?Z.compare_lt_iff; lia.
Qed.

Lemma lex3_antisym a b : lex3 b a = CompOpp (lex3 a b).
Proof.
  destruct a as [[a1 a2] a3], b as [[b1 b2] b3]. unfold lex3.
  rewrite (Z.compare_antisym a1 b1), (Z.compare_antisym a2 b2),
    (Z.compare_antisym a3 b3).
  destruct (a1 ?= b1)%Z, (a2 ?= b2)%Z, (a3 ?= b3)%Z; reflexivity.
Qed.

Lemma lex3_refl a : lex3 a a = Eq.
Proof.
  destruct a as [[a1 a2] a3]. unfold lex3. now rewrite !Z.compare_refl.
Qed.

Lemma lex3_eq a b : lex3 a b = Eq -> a = b.
Proof.
  destruct a as [[a1 a2] a3], b as [[b1 b2] b3]. unfold lex3.
  destruct (Z.compare_spec a1 b1), (Z.compare_spec a2 b2),
    (Z.compare_spec a3 b3); congruence.
Qed.

Lemma is_nan_spec (x : float) : is_nan x = false <-> Prim2SF x <> S754_nan.
Proof.
  unfold is_nan. rewrite FloatAxioms.eqb_spec. unfold SFeqb.
  destruct (Prim2SF x) as [s|s| |s m e] eqn:E.
  - cbn. split; [discriminate | reflexivity].
  - destruct s; cbn; (split; [discriminate | reflexivity]).
  - cbn. split; [discriminate | congruence].
  - rewrite SFcompare_rank by discriminate. rewrite lex3_refl.
    cbn. split; [discriminate | reflexivity].
Qed.

Section Compare.

Variables x y : float.

Hypothesis Hx : is_nan x = false.

Hypothesis Hy : is_nan y = false.

Lemma ltb_rank : (x <? y) = is_lt (lex3 (rank (Prim2SF x)) (rank (Prim2SF y))).
Proof using Hx Hy.
  rewrite FloatAxioms.ltb_spec. unfold SFltb.
  rewrite SFcompare_rank by now apply is_nan_spec.
  now destruct (lex3 _ _).
Qed.

Lemma eqb_rank : (x =? y) = is_eq (lex3 (rank (Prim2SF x)) (rank (Prim2SF y))).
Proof using Hx Hy.
  rewrite FloatAxioms.eqb_spec. unfold SFeqb.
  rewrite SFcompare_rank by now apply is_nan_spec.
  now destruct (lex3 _ _).
Qed.

Lemma leb_rank : (x <=? y) = is_le (lex3 (rank (Prim2SF x)) (rank (Prim2SF y))).
Proof using Hx Hy.
  rewrite FloatAxioms.leb_spec. unfold SFleb.
  rewrite SFcompare_rank by now apply is_nan_spec.
  now destruct (lex3 _ _).
Qed.

End Compare.

Lemma nan_cases (x : float) : {is_nan x = true} + {is_nan x = false}.
Proof. destruct (is_nan x); [left | right]; reflexivity. Qed.

Lemma nan_SF (x : float) : is_nan x = true -> Prim2SF x = S754_nan.
Proof.
  intros H. destruct (Prim2SF x) eqn:E; try reflexivity;
    exfalso; apply not_false_iff_true in H; apply H, is_nan_spec; congruence.
Qed.

Lemma ltb_nan_l x y : is_nan x = true -> (x <? y) = false.
Proof.
  intros H. rewrite FloatAxioms.ltb_spec, (nan_SF x H). reflexivity.
Qed.

Lemma ltb_nan_r x y : is_nan y = true -> (x <? y) = false.
Proof.
  intros H. rewrite FloatAxioms.ltb_spec, (nan_SF y H).
  unfold SFltb. now destruct (Prim2SF x).
Qed.

Lemma eqb_nan_l x y : is_nan x = true -> (x =? y) = false.
Proof.
  intros H. rewrite FloatAxioms.eqb_spec, (nan_SF x H). reflexivity.
Qed.

Lemma eqb_nan_r x y : is_nan y = true -> (x =? y) = false.
Proof.
  intros H. rewrite FloatAxioms.eqb_spec, (nan_SF y H).
  unfold SFeqb. now destruct (Prim2SF x).
Qed.

Lemma ltb_true_not_nan x y :
  (x <? y) = true -> is_nan x = false /\ is_nan y = false.
Proof.
  intros H. split.
  - destruct (nan_cases x) as [N|N]; [|exact N].
    rewrite (ltb_nan_l x y N) in H. discriminate.
  - destruct (nan_cases y) as [N|N]; [|exact N].
    rewrite (ltb_nan_r x y N) in H. discriminate.
Qed.

Lemma eqb_true_not_nan x y :
  (x =? y) = true -> is_nan x = false /\ is_nan y = false.
Proof.
  intros H. split.
  - destruct (nan_cases x) as [N|N]; [|exact N].
    rewrite (eqb_nan_l x y N) in H. discriminate.
  - destruct (nan_cases y) as [N|N]; [|exact N].
    rewrite (eqb_nan_r x y N) in H. discriminate.
Qed.

Lemma ltb_irrefl x : (x <? x) = false.
Proof.
  destruct (nan_cases x) as [N|N]; [now apply ltb_nan_l|].
  rewrite ltb_rank, lex3_refl by assumption. reflexivity.
Qed.

Lemma ltb_trans x y z :
  (x <? y) = true -> (y <? z) = true -> (x <? z) = true.
Proof.
  intros H1 H2.
  destruct (ltb_true_not_nan _ _ H1) as [Nx Ny].
  destruct (ltb_true_not_nan _ _ H2) as [_ Nz].
  rewrite ltb_rank in * by assumption.
  destruct (lex3 (rank (Prim2SF x)) (rank (Prim2SF y))) eqn:E1; try discriminate.
  destruct (lex3 (rank (Prim2SF y)) (rank (Prim2SF z))) eqn:E2; try discriminate.
  now rewrite (lex3_lt_trans _ _ _ E1 E2).
Qed.

Lemma ltb_asym x y : (x <? y) = true -> (y <? x) = false.
Proof.
  intros H. destruct (y <? x) eqn:E; [|reflexivity].
  pose proof (ltb_trans _ _ _ H E) as C.
  rewrite ltb_irrefl in C. discriminate.
Qed.

(** On values that are not NaN, "not less than" is "greater or equal". *)
Lemma nlt_leb x y :
  is_nan x = false -> is_nan y = false -> (x <? y) = false -> (y <=? x) = true.
Proof.
  intros Nx Ny. rewrite ltb_rank, leb_rank by assumption.
  rewrite (lex3_antisym (rank (Prim2SF x))).
  now destruct (lex3 _ _).
Qed.

Lemma nlt_trans x y z :
  is_nan y = false ->
  (y <? x) = false -> (z <? y) = false -> (z <? x) = false.
Proof.
  intros Ny H1 H2.
  destruct (nan_cases x) as [Nx|Nx]; [now apply ltb_nan_r|].
  destruct (nan_cases z) as [Nz|Nz]; [now apply ltb_nan_l|].
  destruct (z <? x) eqn:E; [|reflexivity].
  rewrite ltb_rank in * by assumption.
  rewrite (lex3_antisym (rank (Prim2SF x))) in H1.
  rewrite (lex3_antisym (rank (Prim2SF y))) in H2.
  destruct (lex3 (rank (Prim2SF x)) (rank (Prim2SF y))) eqn:E1; try discriminate;
  destruct (lex3 (rank (Prim2SF y)) (rank (Prim2SF z))) eqn:E2; try discriminate;
  destruct (lex3 (rank (Prim2SF z)) (rank (Prim2SF x))) eqn:E3; try discriminate.
  - apply lex3_eq in E1, E2. rewrite E1, E2, lex3_refl in E3. discriminate.
  - apply lex3_eq in E1. rewrite E1 in E3.
    pose proof (lex3_lt_trans _ _ _ E2 E3) as C. rewrite lex3_refl in C. discriminate.
  - apply lex3_eq in E2. rewrite <- E2 in E3.
    pose proof (lex3_lt_trans _ _ _ E1 E3) as C. rewrite lex3_refl in C. discriminate.
  - pose proof (lex3_lt_trans _ _ _ (lex3_lt_trans _ _ _ E1 E2) E3) as C.
    rewrite lex3_refl in C. discriminate.
Qed.

(** [==] implies equal ranks, so equal floats compare alike with a third. *)
Lemma eqb_rank_eq x y : (x =? y) = true -> rank (Prim2SF x) = rank (Prim2SF y).
Proof.
  intros H. destruct (eqb_true_not_nan _ _ H) as [Nx Ny].
  rewrite eqb_rank in H by assumption.
  apply lex3_eq. now destruct (lex3 _ _).
Qed.

Lemma eqb_ltb_l x y z : (x =? y) = true -> (x <? z) = (y <? z).
Proof.
  intros H. destruct (eqb_true_not_nan _ _ H) as [Nx Ny].
  destruct (nan_cases z) as [Nz|Nz]; [now rewrite (ltb_nan_r x z Nz), (ltb_nan_r y z Nz)|].
  rewrite !ltb_rank by assumption. now rewrite (eqb_rank_eq _ _ H).
Qed.

Lemma eqb_ltb_r x y z : (x =? y) = true -> (z <? x) = (z <? y).
Proof.
  intros H. destruct (eqb_true_not_nan _ _ H) as [Nx Ny].
  destruct (nan_cases z) as [Nz|Nz]; [now rewrite (ltb_nan_l z x Nz), (ltb_nan_l z y Nz)|].
  rewrite !ltb_rank by assumption. now rewrite (eqb_rank_eq _ _ H).
Qed.

Lemma eqb_nlt x y : (x =? y) = true -> (x <? y) = false.
Proof.
  intros H. rewrite (eqb_ltb_l _ _ _ H). apply ltb_irrefl.
Qed.

End FloatOrder.

(** ** Differences and products that are zero *)

Module FloatZero.

Import FloatRank FloatOrder.

(** A finite float is a zero or a number. *)
Lemma is_finite_SF (x : float) :
  is_finite x = true ->
  (exists s, Prim2SF x = S754_zero s) \/
  (exists s m e, Prim2SF x = S754_finite s m e).
Proof.
  unfold is_finite. intros H. apply negb_true_iff, orb_false_iff in H.
  destruct H as [Hnan Hinf]. apply is_nan_spec in Hnan.
  unfold is_infinity in Hinf.
  rewrite FloatAxioms.eqb_spec, abs_spec in Hinf.
  destruct (Prim2SF x) as [s|s| |s m e].
  - left. now exists s.
  - discriminate Hinf.
  - congruence.
  - right. now exists s, m, e.
Qed.

Lemma sub_diag (x : float) : is_finite x = true -> x - x = 0.
Proof.
  intros H. apply Prim2SF_inj. rewrite sub_spec.
  destruct (is_finite_SF x H) as [[s ->]|(s & m & e & ->)].
  - now destruct s.
  - unfold SF64sub, SFsub. now rewrite Z.sub_diag.
Qed.

Lemma binary_round_aux_sign (sx : bool) (mx ex : Z) (lx : location) :
  match binary_round_aux prec emax sx mx ex lx with
  | S754_zero s | S754_infinity s | S754_finite s _ _ => s = sx
  | S754_nan => True
  end.
Proof.
  unfold binary_round_aux.
  destruct (shr_fexp prec emax mx ex lx) as [mrs' e'].
  destruct (shr_fexp prec emax _ e' loc_Exact) as [mrs'' e''].
  destruct (shr_m mrs''); [reflexivity| |exact I].
  now destruct (e'' <=? emax - prec)%Z.
Qed.

(** A finite square is a zero or a number with the sign bit clear. *)
Lemma square_SF (x : float) :
  is_finite (x * x) = true ->
  Prim2SF (x * x) = S754_zero false \/
  exists m e, Prim2SF (x * x) = S754_finite false m e.
Proof.
  intros H. destruct (is_finite_SF _ H) as [[s E]|(s & m & e & E)].
  - left. rewrite E. f_equal.
    rewrite mul_spec in E. unfold SF64mul, SFmul in E.
    destruct (Prim2SF x) as [sx|sx| |sx mx ex]; try discriminate E.
    + injection E as <-. now destruct sx.
    + pose proof (binary_round_aux_sign (xorb sx sx) (Z.pos (mx * mx))
                    (ex + ex) loc_Exact) as Hs.
      rewrite E in Hs. rewrite Hs. now destruct sx.
  - right. exists m, e. rewrite E. f_equal.
    rewrite mul_spec in E. unfold SF64mul, SFmul in E.
    destruct (Prim2SF x) as [sx|sx| |sx mx ex]; try discriminate E.
    pose proof (binary_round_aux_sign (xorb sx sx) (Z.pos (mx * mx))
                  (ex + ex) loc_Exact) as Hs.
    rewrite E in Hs. rewrite Hs. now destruct sx.
Qed.

Lemma square_mul_zero (x : float) :
  is_finite (x * x) = true -> x * x * 0 = 0.
Proof.
  intros H. apply Prim2SF_inj. rewrite (mul_spec (x * x) 0).
  now destruct (square_SF x H) as [->|(m & e & ->)].
Qed.

End FloatZero.

Import FloatRank FloatOrder.

Section KmlProperties.

Context {lib : Library}.

#[local] Set Default Proof Using "Type".

(** ** Properties of the filter *)

Lemma distance_data c c' k k' :
  data c = data c' -> data k = data k' -> distance c k = distance c' k'.
Proof.
  unfold data, distance. intros [= -> -> _ _] [= -> -> _ _]. reflexivity.
Qed.

Lemma far_data T c c' k k' :
  data c = data c' -> data k = data k' -> far T c k -> far T c' k'.
Proof.
  intros Hc Hk [d [Hd Hlt]]. exists d.
  now rewrite <- (distance_data _ _ _ _ Hc Hk).
Qed.

Lemma scan_kept_true T c kept :
  scan_kept T c kept = Ret true <-> Forall (far T c) kept.
Proof.
  induction kept as [|k kept IH]; cbn.
  - split; [constructor | reflexivity].
  - split.
    + destruct (distance c k) as [d|e] eqn:Hd; cbn; [|discriminate].
      destruct (d <? T) eqn:Hlt; [discriminate|].
      intros H. constructor; [exists d; auto | now apply IH].
    + intros H. inversion H as [|k0 kept0 [d [Hd Hlt]] Hrest]; subst.
      rewrite Hd; cbn. rewrite Hlt. now apply IH.
Qed.

Lemma scan_kept_false T c kept :
  scan_kept T c kept = Ret false ->
  exists k d, In k kept /\ distance c k = Ret d /\ (d <? T) = true.
Proof.
  induction kept as [|k kept IH]; cbn; [discriminate|].
  destruct (distance c k) as [d|e] eqn:Hd; cbn; [|discriminate].
  destruct (d <? T) eqn:Hlt.
  - intros _. exists k, d. auto.
  - intros H. destruct (IH H) as [k' [d' [Hin H']]]. exists k', d'. auto.
Qed.

(** The filter keeps what [_add_placemark] stored and the length of the
    list, whether or not an exception escapes. *)
Lemma filter_loop_data T kept n l :
  map data (fst (filter_loop T kept n l)) = map data l.
Proof.
  revert kept n. induction l as [|c l IH]; intros kept n; cbn; [reflexivity|].
  destruct (scan_kept T (set_Export c true) kept) as [[|]|e]; cbn.
  - specialize (IH (kept ++ [set_Export c true]) (S n)).
    destruct (filter_loop T (kept ++ [set_Export c true]) (S n) l); cbn in *.
    now rewrite IH.
  - specialize (IH kept n).
    destruct (filter_loop T kept n l); cbn in *. now rewrite IH.
  - reflexivity.
Qed.

(** What a completed run of the loop leaves behind. *)
Lemma filter_loop_spec T l : forall kept n l' m,
  filter_loop T kept n l = (l', Ret m) ->
  Forall (fun c => Export c <> None) l' /\
  m = (n + length (List.filter exported l'))%nat /\
  (forall c, In c l' -> exported c = true -> Forall (far T c) kept) /\
  (forall (i j : nat) k c, (i < j)%nat ->
     l' !! i = Some k -> l' !! j = Some c ->
     exported k = true -> exported c = true -> far T c k).
Proof.
  induction l as [|c0 l IH]; intros kept n l' m; cbn.
  - intros [= <- <-]. repeat split.
    + constructor.
    + cbn. lia.
    + intros c [].
    + intros i j k c _ Hi. destruct i; discriminate.
  - destruct (scan_kept T (set_Export c0 true) kept) as [[|]|e] eqn:Hscan.
    + destruct (filter_loop T (kept ++ [set_Export c0 true]) (S n) l)
        as [rest' r] eqn:Hrest.
      intros [= <- ->].
      destruct (IH _ _ _ _ Hrest) as (Hdef & Hm & Hkept & Hpairs).
      apply scan_kept_true in Hscan.
      repeat split.
      * constructor; [discriminate | exact Hdef].
      * cbn. lia.
      * intros c [<-|Hin] Hexp; [exact Hscan|].
        specialize (Hkept c Hin Hexp).
        apply Forall_app in Hkept. tauto.
      * intros i j k c Hij Hi Hj Hk Hc.
        destruct j as [|j]; [lia|]. cbn in Hj.
        destruct i as [|i]; cbn in Hi.
        -- injection Hi as <-.
           assert (Hin : In c rest').
           { apply list_elem_of_In. eapply list_elem_of_lookup_2. exact Hj. }
           specialize (Hkept c Hin Hc).
           apply Forall_app in Hkept. destruct Hkept as [_ Hlast].
           now inversion Hlast.
        -- apply (Hpairs i j); auto. lia.
    + destruct (filter_loop T kept n l) as [rest' r] eqn:Hrest.
      intros [= <- ->].
      destruct (IH _ _ _ _ Hrest) as (Hdef & Hm & Hkept & Hpairs).
      repeat split.
      * constructor; [discriminate | exact Hdef].
      * cbn. lia.
      * intros c [<-|Hin] Hexp; [discriminate|]. now apply Hkept.
      * intros i j k c Hij Hi Hj Hk Hc.
        destruct j as [|j]; [lia|]. cbn in Hj.
        destruct i as [|i]; cbn in Hi.
        -- injection Hi as <-. discriminate.
        -- apply (Hpairs i j); auto. lia.
    + intros [=].
Qed.

Lemma exported_iff c : exported c = true <-> Export c = Some true.
Proof.
  unfold exported. destruct (Export c) as [[|]|]; split; congruence.
Qed.

(** Running the loop again on what it left behind changes nothing. *)
Lemma filter_loop_idem T l : forall kept n,
  filter_loop T kept n (fst (filter_loop T kept n l)) = filter_loop T kept n l.
Proof.
  induction l as [|c l IH]; intros kept n; cbn; [reflexivity|].
  destruct (scan_kept T (set_Export c true) kept) as [[|]|e] eqn:Hscan; cbn.
  - specialize (IH (kept ++ [set_Export c true]) (S n)).
    destruct (filter_loop T (kept ++ [set_Export c true]) (S n) l)
      as [rest' r]; cbn in *.
    change (set_Export (set_Export c true) true) with (set_Export c true).
    rewrite Hscan, IH. reflexivity.
  - specialize (IH kept n).
    destruct (filter_loop T kept n l) as [rest' r]; cbn in *.
    change (set_Export (set_Export (set_Export c true) false) true)
      with (set_Export c true).
    rewrite Hscan, IH. reflexivity.
  - change (set_Export (set_Export c true) true) with (set_Export c true).
    rewrite Hscan. reflexivity.
Qed.

Lemma scan_kept_coords T c c2 kept kept2 :
  coords c = coords c2 -> map coords kept = map coords kept2 ->
  scan_kept T c kept = scan_kept T c2 kept2.
Proof.
  intros Hc. revert kept2.
  induction kept as [|k kept IH]; intros [|k2 kept2]; cbn; try discriminate.
  - reflexivity.
  - intros [= Hk1 Hk2 Hrest].
    injection Hc as Hc1 Hc2.
    unfold distance. rewrite Hc1, Hc2, Hk1, Hk2.
    destruct (_distance_between_placemarks _ _ _ _) as [d|e]; cbn;
      [|reflexivity].
    destruct (d <? T); [reflexivity|]. now apply IH.
Qed.

Lemma filter_loop_coords T l : forall l2 kept kept2 n,
  map coords l = map coords l2 -> map coords kept = map coords kept2 ->
  snd (filter_loop T kept n l) = snd (filter_loop T kept2 n l2) /\
  (forall m, snd (filter_loop T kept n l) = Ret m ->
     map Export (fst (filter_loop T kept n l))
     = map Export (fst (filter_loop T kept2 n l2))).
Proof.
  induction l as [|c l IH]; intros [|c2 l2] kept kept2 n; cbn;
    try discriminate.
  - intros _ _. split; reflexivity.
  - intros [= Hc1 Hc2 Hl] Hkept.
    assert (Hc : coords (set_Export c true) = coords (set_Export c2 true)).
    { unfold coords; cbn. now rewrite Hc1, Hc2. }
    rewrite <- (scan_kept_coords T _ _ _ _ Hc Hkept).
    destruct (scan_kept T (set_Export c true) kept) as [[|]|e]; cbn.
    + assert (Hkept' : map coords (kept ++ [set_Export c true])
                       = map coords (kept2 ++ [set_Export c2 true])).
      { rewrite !map_app, Hkept; cbn. now rewrite Hc. }
      destruct (IH l2 _ _ (S n) Hl Hkept') as [Hr Hflags].
      destruct (filter_loop T (kept ++ [set_Export c true]) (S n) l),
        (filter_loop T (kept2 ++ [set_Export c2 true]) (S n) l2);
        cbn in *.
      split; [exact Hr|]. intros m Hm. now rewrite (Hflags m Hm).
    + destruct (IH l2 _ _ n Hl Hkept) as [Hr Hflags].
      destruct (filter_loop T kept n l), (filter_loop T kept2 n l2);
        cbn in *.
      split; [exact Hr|]. intros m Hm. now rewrite (Hflags m Hm).
    + split; [reflexivity | discriminate].
Qed.

(** The loop over a prefix and then over the rest: the kept list the rest
    starts from is the one the prefix left, its exported records. *)
Lemma filter_loop_app T l1 l2 : forall kept n,
  filter_loop T kept n (l1 ++ l2) =
  match filter_loop T kept n l1 with
  | (s1, Ret m) =>
      let '(s2, r) := filter_loop T (kept ++ List.filter exported s1) m l2 in
      (s1 ++ s2, r)
  | (s1, Raise e) => (s1 ++ l2, Raise e)
  end.
Proof.
  induction l1 as [|c l1 IH]; intros kept n; cbn.
  - rewrite app_nil_r. now destruct (filter_loop T kept n l2).
  - destruct (scan_kept T (set_Export c true) kept) as [[|]|e]; cbn.
    + rewrite IH.
      destruct (filter_loop T (kept ++ [set_Export c true]) (S n) l1)
        as [s1 [m|e]]; cbn; [|reflexivity].
      rewrite <- app_assoc; cbn.
      now destruct (filter_loop T _ m l2).
    + rewrite IH.
      destruct (filter_loop T kept n l1) as [s1 [m|e]]; cbn; [|reflexivity].
      now destruct (filter_loop T _ m l2).
    + reflexivity.
Qed.

(** A candidate at a distance not below the threshold from every kept
    record is exported; a distance equal to the threshold is such a
    distance, the comparison being strict. *)
Lemma scan_kept_exact T c kept :
  (forall k, In k kept -> exists d, distance c k = Ret d /\ (d =? T) = true) ->
  scan_kept T c kept = Ret true.
Proof.
  intros H. apply scan_kept_true, List.Forall_forall.
  intros k Hk. destruct (H k Hk) as [d [Hd Heq]].
  exists d. split; [exact Hd | now apply eqb_nlt].
Qed.

(** With no distance below zero nothing is suppressed at threshold 0. *)
Lemma filter_loop_zero l : forall kept n,
  (forall c, In c l -> Forall (far 0 c) kept) ->
  (forall c k, In c l -> In k l -> far 0 c k) ->
  filter_loop 0 kept n l
  = (map (fun c => set_Export c true) l, Ret (n + length l)%nat).
Proof.
  induction l as [|c l IH]; intros kept n Hkept Hpairs; cbn.
  - now rewrite Nat.add_0_r.
  - assert (Hscan : scan_kept 0 (set_Export c true) kept = Ret true).
    { apply scan_kept_true. eapply List.Forall_impl; [|apply (Hkept c); now left].
      intros k. now apply far_data. }
    rewrite Hscan, IH.
    + now rewrite Nat.add_succ_r.
    + intros c' Hc'. apply Forall_app. split.
      * apply Hkept. now right.
      * constructor; [|constructor].
        apply (far_data 0 c' c' c); auto.
        apply Hpairs; [now right | now left].
    + intros c' k' Hc' Hk'. apply Hpairs; now right.
Qed.

(** ** Properties of the order *)

(** The order of strings. *)
Lemma string_compare_refl (a : string) : String.compare a a = Eq.
Proof.
  induction a as [|x a IH]; cbn; [reflexivity|].
  unfold Ascii.compare. now rewrite N.compare_refl.
Qed.

Lemma string_compare_lt_trans (a b c : string) :
  String.compare a b = Lt -> String.compare b c = Lt ->
  String.compare a c = Lt.
Proof.
  revert b c. induction a as [|x a IH]; intros [|y b] [|z c]; cbn;
    try congruence.
  unfold Ascii.compare.
  destruct (N.compare_spec (N_of_ascii x) (N_of_ascii y)) as [E1|L1|G1];
    try discriminate;
    destruct (N.compare_spec (N_of_ascii y) (N_of_ascii z)) as [E2|L2|G2];
    try discriminate; intros H1 H2.
  - rewrite E1, E2, N.compare_refl. now apply (IH b).
  - rewrite E1. now apply N.compare_lt_iff in L2 as ->.
  - rewrite <- E2. now apply N.compare_lt_iff in L1 as ->.
  - assert (L : (N_of_ascii x < N_of_ascii z)%N) by lia.
    now apply N.compare_lt_iff in L as ->.
Qed.

Lemma string_ltb_irrefl (a : string) : String.ltb a a = false.
Proof. unfold String.ltb. now rewrite string_compare_refl. Qed.

(** [key_lt] spelled out: the folders decide, then the latitudes. *)
Lemma key_lt_cases (a b : string * float) :
  key_lt a b = true <->
  String.compare (fst a) (fst b) = Lt \/
  (fst a = fst b /\ (snd a <? snd b) = true).
Proof.
  unfold key_lt.
  destruct (fst a =? fst b)%string eqn:E; cbn.
  - apply String.eqb_eq in E. rewrite E, string_compare_refl.
    destruct (snd a =? snd b) eqn:L; cbn.
    + rewrite (eqb_nlt _ _ L). split; [discriminate|].
      intros [H|[_ H]]; discriminate.
    + split; [auto|]. intros [H|[_ H]]; [discriminate | exact H].
  - apply String.eqb_neq in E. unfold String.ltb.
    destruct (String.compare (fst a) (fst b)); split;
      try discriminate; auto; intros [H|[H _]]; congruence.
Qed.

Lemma key_lt_asym (a b : string * float) :
  key_lt a b = true -> key_lt b a = false.
Proof.
  intros H. destruct (key_lt b a) eqn:H'; [|reflexivity].
  apply key_lt_cases in H, H'.
  destruct H as [H|[E H]], H' as [H'|[E' H']].
  - rewrite String.compare_antisym, H in H'. discriminate.
  - rewrite E', string_compare_refl in H. discriminate.
  - rewrite E, string_compare_refl in H'. discriminate.
  - rewrite (ltb_asym _ _ H) in H'. discriminate.
Qed.

(** "Not below" is transitive through a key whose latitude is a number. *)
Lemma key_nlt_trans (a b c : string * float) :
  is_nan (snd b) = false ->
  key_lt b a = false -> key_lt c b = false -> key_lt c a = false.
Proof.
  intros Nb Hba Hcb. destruct (key_lt c a) eqn:Hca; [|reflexivity].
  exfalso.
  assert (Hba' : ~ (String.compare (fst b) (fst a) = Lt \/
                    (fst b = fst a /\ (snd b <? snd a) = true))).
  { rewrite <- key_lt_cases. congruence. }
  assert (Hcb' : ~ (String.compare (fst c) (fst b) = Lt \/
                    (fst c = fst b /\ (snd c <? snd b) = true))).
  { rewrite <- key_lt_cases. congruence. }
  apply key_lt_cases in Hca.
  destruct (String.compare (fst c) (fst b)) eqn:Ecb; [| tauto |].
  - apply String.compare_eq_iff in Ecb.
    destruct Hca as [Hca|[Eca Hca]].
    + rewrite Ecb in Hca. tauto.
    + destruct (snd b <? snd a) eqn:Lba; [rewrite <- Ecb in Hba'; tauto|].
      destruct (snd c <? snd b) eqn:Lcb; [tauto|].
      rewrite (nlt_trans _ _ _ Nb Lba Lcb) in Hca. discriminate.
  - assert (Lbc : String.compare (fst b) (fst c) = Lt).
    { rewrite String.compare_antisym, Ecb. reflexivity. }
    destruct Hca as [Hca|[Eca Hca]].
    + apply Hba'. left. now apply (string_compare_lt_trans _ (fst c)).
    + apply Hba'. left. now rewrite <- Eca.
Qed.

Lemma key_eqb_nlt (a b k : string * float) :
  key_eqb a k = true -> key_eqb b k = true -> key_lt a b = false.
Proof.
  unfold key_eqb. intros Ha Hb.
  apply andb_true_iff in Ha as [Fa La], Hb as [Fb Lb].
  apply String.eqb_eq in Fa, Fb.
  destruct (key_lt a b) eqn:H; [|reflexivity].
  apply key_lt_cases in H. destruct H as [H|[_ H]].
  - rewrite Fa, Fb, string_compare_refl in H. discriminate.
  - rewrite (eqb_ltb_l _ _ _ La), (eqb_ltb_r _ _ _ Lb), ltb_irrefl in H.
    discriminate.
Qed.

Lemma insert_sorted_Permutation (x : placemark) l :
  Permutation (insert_sorted key_lt sort_key x l) (x :: l).
Proof.
  induction l as [|y l IH]; cbn; [reflexivity|].
  destruct (key_lt (sort_key y) (sort_key x)); [|reflexivity].
  rewrite IH. apply perm_swap.
Qed.

Lemma sorted_Permutation (l : list placemark) :
  Permutation (sorted key_lt sort_key l) l.
Proof.
  induction l as [|x l IH]; cbn; [reflexivity|].
  rewrite insert_sorted_Permutation. now constructor.
Qed.

Lemma insert_sorted_StronglySorted (x : placemark) l :
  Forall numeric l ->
  StronglySorted may_precede l ->
  StronglySorted may_precede (insert_sorted key_lt sort_key x l).
Proof.
  intros Hnum Hs. induction Hs as [|y l Hs IH Hy]; cbn.
  - repeat constructor.
  - inversion Hnum as [|? ? Ny Nl]; subst.
    destruct (key_lt (sort_key y) (sort_key x)) eqn:Hyx.
    + constructor; [now apply IH|].
      rewrite insert_sorted_Permutation. constructor; [|exact Hy].
      now apply key_lt_asym.
    + constructor; [now constructor|].
      constructor; [exact Hyx|].
      eapply List.Forall_impl; [|exact Hy].
      intros z Hz. unfold may_precede in *.
      now apply (key_nlt_trans _ (sort_key y)).
Qed.

Lemma sorted_StronglySorted (l : list placemark) :
  Forall numeric l -> StronglySorted may_precede (sorted key_lt sort_key l).
Proof.
  induction l as [|x l IH]; intros Hnum; cbn; [constructor|].
  inversion Hnum; subst.
  apply insert_sorted_StronglySorted; [|now apply IH].
  now rewrite sorted_Permutation.
Qed.

(** Stability: the records whose key equals a given key keep their order. *)
Lemma insert_sorted_stable (k : string * float) (x : placemark) l :
  List.filter (fun c => key_eqb (sort_key c) k)
    (insert_sorted key_lt sort_key x l)
  = List.filter (fun c => key_eqb (sort_key c) k) (x :: l).
Proof.
  induction l as [|y l IH]; [reflexivity|].
  cbn [insert_sorted].
  destruct (key_lt (sort_key y) (sort_key x)) eqn:Hyx; [|reflexivity].
  cbn [List.filter] in *. rewrite IH.
  destruct (key_eqb (sort_key x) k) eqn:Hx,
    (key_eqb (sort_key y) k) eqn:Hy; try reflexivity.
  rewrite (key_eqb_nlt _ _ _ Hy Hx) in Hyx. discriminate.
Qed.

Lemma sorted_stable (k : string * float) (l : list placemark) :
  List.filter (fun c => key_eqb (sort_key c) k) (sorted key_lt sort_key l)
  = List.filter (fun c => key_eqb (sort_key c) k) l.
Proof.
  induction l as [|x l IH]; [reflexivity|].
  cbn [sorted]. rewrite insert_sorted_stable. cbn. now rewrite IH.
Qed.

(** ** Properties of [_reorder_placemarks] *)

Lemma sort_key_data a b : data a = data b -> sort_key a = sort_key b.
Proof. unfold data, sort_key. now intros [= -> _ _ ->]. Qed.

Lemma numeric_data a b : data a = data b -> numeric a -> numeric b.
Proof. unfold data, numeric. now intros [= -> _ _ _]. Qed.

Lemma reorder_fst T st :
  fst (_reorder_placemarks T st)
  = fst (_filter_placemarks T (sorted key_lt sort_key st)).
Proof.
  unfold _reorder_placemarks.
  now destruct (_filter_placemarks T (sorted key_lt sort_key st)).
Qed.

Lemma reorder_data T st :
  map data (fst (_reorder_placemarks T st))
  = map data (sorted key_lt sort_key st).
Proof. rewrite reorder_fst. apply filter_loop_data. Qed.

Lemma cons_eq_inv {A} (x y : A) (l l' : list A) :
  x :: l = y :: l' -> x = y /\ l = l'.
Proof. intros H. split; congruence. Qed.

Lemma Forall_may_precede_data a b l1 : forall l2,
  data a = data b -> map data l1 = map data l2 ->
  Forall (may_precede a) l1 -> Forall (may_precede b) l2.
Proof.
  intros l2 Hab. revert l2.
  induction l1 as [|c l1 IH]; intros [|c2 l2]; cbn [map]; try discriminate.
  - constructor.
  - intros [Hc Hl]%cons_eq_inv Hf. inversion Hf; subst.
    constructor; [|now apply IH].
    unfold may_precede in *.
    now rewrite <- (sort_key_data _ _ Hab), <- (sort_key_data _ _ Hc).
Qed.

Lemma StronglySorted_data l1 : forall l2,
  map data l1 = map data l2 ->
  StronglySorted may_precede l1 -> StronglySorted may_precede l2.
Proof.
  induction l1 as [|a l1 IH]; intros [|b l2]; cbn [map List.filter]; try discriminate.
  - constructor.
  - intros [Hab Hl]%cons_eq_inv Hs. inversion Hs; subst.
    constructor; [now apply IH|].
    now apply (Forall_may_precede_data a b l1).
Qed.

Lemma Forall_numeric_data l1 : forall l2,
  map data l1 = map data l2 -> Forall numeric l1 -> Forall numeric l2.
Proof.
  induction l1 as [|a l1 IH]; intros [|b l2]; cbn [map List.filter]; try discriminate.
  - constructor.
  - intros [Hab Hl]%cons_eq_inv Hn. inversion Hn; subst.
    constructor; [now apply (numeric_data a) | now apply IH].
Qed.

Lemma filter_key_data (k : string * float) l1 : forall l2,
  map data l1 = map data l2 ->
  map data (List.filter (fun c => key_eqb (sort_key c) k) l1)
  = map data (List.filter (fun c => key_eqb (sort_key c) k) l2).
Proof.
  induction l1 as [|a l1 IH]; intros [|b l2]; cbn [map List.filter]; try discriminate.
  - reflexivity.
  - intros [Hab Hl]%cons_eq_inv. rewrite (sort_key_data _ _ Hab).
    destruct (key_eqb (sort_key b) k); cbn [map]; rewrite (IH l2 Hl); congruence.
Qed.

Lemma StronglySorted_lookup {A} (R : A -> A -> Prop) (l : list A) :
  StronglySorted R l ->
  forall (i j : nat) a b, (i < j)%nat ->
    l !! i = Some a -> l !! j = Some b -> R a b.
Proof.
  induction 1 as [|x l Hs IH Hx]; intros i j a b Hij Hi Hj.
  - destruct i; discriminate.
  - destruct j as [|j]; [lia|]. cbn in Hj. destruct i as [|i]; cbn in Hi.
    + injection Hi as <-.
      rewrite List.Forall_forall in Hx. apply Hx.
      apply list_elem_of_In. eapply list_elem_of_lookup_2. exact Hj.
    + apply (IH i j); auto. lia.
Qed.

(** What [may_precede] says about the folders and the latitudes. *)
Lemma may_precede_ascending a b :
  numeric a -> numeric b -> may_precede a b ->
  String.leb (Folder a) (Folder b) = true /\
  (Folder a = Folder b -> (Latitude a <=? Latitude b) = true).
Proof.
  unfold numeric, may_precede. intros Na Nb H.
  assert (H' : ~ (String.compare (Folder b) (Folder a) = Lt \/
                  (Folder b = Folder a /\ (Latitude b <? Latitude a) = true))).
  { rewrite <- (key_lt_cases (sort_key b) (sort_key a)). congruence. }
  split.
  - unfold String.leb. rewrite String.compare_antisym.
    destruct (String.compare (Folder b) (Folder a)); cbn; tauto.
  - intros E. apply nlt_leb; auto.
    destruct (Latitude b <? Latitude a); [|reflexivity].
    exfalso. apply H'. right. auto.
Qed.

Lemma reorder_StronglySorted T st :
  Forall numeric st -> StronglySorted may_precede (fst (_reorder_placemarks T st)).
Proof.
  intros Hn. eapply StronglySorted_data; [symmetry; apply reorder_data|].
  now apply sorted_StronglySorted.
Qed.

Lemma reorder_numeric T st :
  Forall numeric st -> Forall numeric (fst (_reorder_placemarks T st)).
Proof.
  intros Hn. eapply Forall_numeric_data; [symmetry; apply reorder_data|].
  now rewrite sorted_Permutation.
Qed.

(** After [_reorder_placemarks] the list is ascending by folder and, within
    a folder, by latitude. *)
Lemma reorder_ascending (T : float) (st : list placemark) :
  Forall numeric st ->
  forall (i j : nat) a b, (i < j)%nat ->
    fst (_reorder_placemarks T st) !! i = Some a ->
    fst (_reorder_placemarks T st) !! j = Some b ->
    String.leb (Folder a) (Folder b) = true /\
    (Folder a = Folder b -> (Latitude a <=? Latitude b) = true).
Proof.
  intros Hn i j a b Hij Hi Hj.
  pose proof (reorder_numeric T st Hn) as Hn'.
  rewrite List.Forall_forall in Hn'.
  apply may_precede_ascending.
  - apply Hn', list_elem_of_In. eapply list_elem_of_lookup_2. exact Hi.
  - apply Hn', list_elem_of_In. eapply list_elem_of_lookup_2. exact Hj.
  - eapply StronglySorted_lookup;
      [apply (reorder_StronglySorted T st Hn) | exact Hij | exact Hi | exact Hj].
Qed.

(** C4. After [_reorder_placemarks] the list holds the records that were
    stored, ascending by folder (lexicographic) and, within a folder, by
    latitude (numeric), and records with equal (folder, latitude) keys keep
    the order they had; latitudes are numbers (not NaN). *)
Theorem reorder_sorts_stably (T : float) (st : list placemark) :
  Forall numeric st ->
  Permutation (map data (fst (_reorder_placemarks T st))) (map data st) /\
  (forall (i j : nat) a b, (i < j)%nat ->
     fst (_reorder_placemarks T st) !! i = Some a ->
     fst (_reorder_placemarks T st) !! j = Some b ->
     String.leb (Folder a) (Folder b) = true /\
     (Folder a = Folder b -> (Latitude a <=? Latitude b) = true)) /\
  (forall k : string * float,
     map data (List.filter (fun c => key_eqb (sort_key c) k)
                 (fst (_reorder_placemarks T st)))
     = map data (List.filter (fun c => key_eqb (sort_key c) k) st)).
Proof.
  intros Hn. split; [|split].
  - rewrite reorder_data. apply Permutation_map, sorted_Permutation.
  - now apply reorder_ascending.
  - intros k.
    rewrite (filter_key_data k _ _ (reorder_data T st)).
    now rewrite sorted_stable.
Qed.

(** ** Properties of the document tree *)

(** The loop of [_get_kml_string] computes [group]. *)
Lemma visit_all_group l : forall w,
  Forall (fun c => Export c <> None) l ->
  exists w', visit_all w l = Ret w' /\
    folders_of w' = document w ++ group (folder_name_text w) (folder w) l /\
    nb_files_to_export w'
    = (nb_files_to_export w + length (List.filter exported l))%nat.
Proof.
  induction l as [|c l IH]; intros w Hdef; cbn.
  - exists w. repeat split. lia.
  - inversion Hdef as [|? ? Hc Hl]; subst.
    unfold visit, emitted, exported.
    destruct (Export c) as [[|]|] eqn:E; [| |congruence];
      destruct (negb (Folder c =? folder_name_text w)%string); cbn;
      match goal with |- context [visit_all ?w1 l] =>
        destruct (IH w1 Hl) as (w' & Hrun & Hf & Hn) end;
      exists w'; cbn in *; rewrite Hrun, Hf, Hn, <- ?app_assoc, ?app_nil_r;
      repeat split; unfold exported; lia.
Qed.

Lemma placemarks_in_Folder_element f pms :
  Forall (fun x => tag_of x = "Placemark") pms ->
  placemarks_in (Folder_element f pms) = pms.
Proof.
  unfold placemarks_in; cbn. induction 1 as [|x pms Hx _ IH]; cbn.
  - reflexivity.
  - rewrite Hx. cbn. now rewrite IH.
Qed.

Lemma emitted_tag c : Forall (fun x => tag_of x = "Placemark") (emitted c).
Proof. unfold emitted. destruct (exported c); repeat constructor. Qed.

Lemma all_placemarks_group l : forall cur pms,
  Forall (fun x => tag_of x = "Placemark") pms ->
  all_placemarks (group cur pms l)
  = pms ++ map Placemark_element (List.filter exported l).
Proof.
  unfold all_placemarks.
  induction l as [|c l IH]; intros cur pms Hp; cbn [group List.filter].
  - cbn [map concat]. now rewrite placemarks_in_Folder_element, !app_nil_r.
  - destruct (negb (Folder c =? cur)%string); cbn [map concat].
    + rewrite placemarks_in_Folder_element, IH by
        (try assumption; apply emitted_tag).
      unfold emitted. now destruct (exported c).
    + rewrite IH by (apply Forall_app; split; [assumption|apply emitted_tag]).
      rewrite <- app_assoc. unfold emitted. now destruct (exported c).
Qed.

Lemma members_absent f l :
  (forall c, In c l -> Folder c <> f) -> members f l = [].
Proof.
  induction l as [|c l IH]; intros H; cbn; [reflexivity|].
  assert (E : (Folder c =? f)%string = false).
  { apply String.eqb_neq, H. now left. }
  rewrite E, andb_false_r. apply IH. intros c' Hc'. apply H. now right.
Qed.

Lemma string_ltb_total (a b : string) :
  a <> b -> String.ltb a b = false -> String.ltb b a = true.
Proof.
  unfold String.ltb. intros Hne. rewrite (String.compare_antisym b a).
  destruct (String.compare a b) eqn:E; cbn; try congruence.
  apply String.compare_eq_iff in E. congruence.
Qed.

(** On a list ascending by folder, whose folders are not below the current
    label, the walk makes one folder for the label and one for each other
    folder value, each holding the exported records of its value. *)
Lemma group_sorted l : forall cur pms,
  StronglySorted folder_ascending l ->
  (forall c, In c l -> String.ltb (Folder c) cur = false) ->
  exists labels,
    group cur pms l
    = Folder_element cur (pms ++ map Placemark_element (members cur l))
      :: map (folder_of l) labels /\
    NoDup (cur :: labels) /\
    (forall f, In f labels <-> f <> cur /\ In f (map Folder l)).
Proof.
  induction l as [|c l IH]; intros cur pms Hs Hcur; cbn [group].
  - exists []. cbn. rewrite app_nil_r. split; [reflexivity|]. split.
    + apply NoDup_singleton.
    + intros f. split; [intros [] | intros [_ []]].
  - inversion Hs as [|? ? Hs' Hc]; subst.
    rewrite List.Forall_forall in Hc.
    destruct (Folder c =? cur)%string eqn:E; cbn [negb].
    + apply String.eqb_eq in E.
      destruct (IH cur (pms ++ emitted c) Hs') as (labels & Hg & Hnd & Hin).
      { intros x Hx. apply Hcur. now right. }
      exists labels. split; [|split].
      * rewrite Hg. f_equal.
        -- f_equal. rewrite <- app_assoc. f_equal.
           unfold members, emitted; cbn. rewrite E, String.eqb_refl.
           now destruct (exported c).
        -- apply map_ext_in. intros f Hf. apply Hin in Hf as [Hne _].
           unfold folder_of, members; cbn.
           assert (E' : (Folder c =? f)%string = false)
             by (apply String.eqb_neq; congruence).
           now rewrite E', andb_false_r.
      * exact Hnd.
      * intros f. rewrite Hin. cbn. intuition congruence.
    + apply String.eqb_neq in E.
      assert (Hlt : String.ltb cur (Folder c) = true).
      { apply string_ltb_total; [congruence|]. apply Hcur. now left. }
      assert (Habsent : forall x, In x (c :: l) -> Folder x <> cur).
      { intros x [<-|Hx]; [exact E|]. intros Ex.
        specialize (Hc x Hx). unfold folder_ascending in Hc.
        rewrite Ex in Hc. congruence. }
      destruct (IH (Folder c) (emitted c) Hs') as (labels & Hg & Hnd & Hin).
      { intros x Hx. apply (Hc x Hx). }
      exists (Folder c :: labels). split; [|split].
      * rewrite Hg, (members_absent cur (c :: l) Habsent). cbn [map].
        rewrite app_nil_r. f_equal. f_equal.
        -- unfold folder_of, members, emitted; cbn.
           rewrite String.eqb_refl, andb_true_r. now destruct (exported c).
        -- apply map_ext_in. intros f Hf. apply Hin in Hf as [Hne _].
           unfold folder_of, members; cbn.
           assert (E' : (Folder c =? f)%string = false)
             by (apply String.eqb_neq; congruence).
           now rewrite E', andb_false_r.
      * constructor; [|exact Hnd].
        intros [Heq|Hf]%list_elem_of_In; [congruence|].
        apply Hin in Hf as [_ Hf]. apply in_map_iff in Hf as (x & Hx & Hxl).
        apply (Habsent x); [now right | exact Hx].
      * intros f. cbn. rewrite Hin. split.
        -- intros [<-|[Hne Hf]]; [split; [congruence | now left]|].
           split; [|now right].
           intros ->. apply in_map_iff in Hf as (x & Hx & Hxl).
           apply (Habsent x); [now right | exact Hx].
        -- intros [Hne [Hf|Hf]]; [now left|].
           destruct (String.eqb_spec (Folder c) f); [now left | right; auto].
Qed.

(** ** The rendering as a whole *)

Lemma reorder_snd T st :
  snd (_reorder_placemarks T st)
  = (let* _ := snd (_filter_placemarks T (sorted key_lt sort_key st)) in
     Ret tt).
Proof.
  unfold _reorder_placemarks.
  now destruct (_filter_placemarks T (sorted key_lt sort_key st)).
Qed.

Lemma reorder_flags T st u :
  snd (_reorder_placemarks T st) = Ret u ->
  Forall (fun c => Export c <> None) (fst (_reorder_placemarks T st)).
Proof.
  rewrite reorder_snd, reorder_fst. unfold _filter_placemarks.
  destruct (filter_loop T [] 0 (sorted key_lt sort_key st)) as [l' [m|e]] eqn:E;
    cbn; [|discriminate].
  intros _. now destruct (filter_loop_spec _ _ _ _ _ _ E).
Qed.

(** [_get_kml_tree] in one equation: the list is the one that
    [_reorder_placemarks] leaves; an exception of the filter escapes; the
    empty list raises [IndexError]; otherwise the tree holds the folders of
    [group], and the count is the number of exported records. *)
Lemma get_kml_tree_eq name desc T st :
  _get_kml_tree name desc T st =
  (fst (_reorder_placemarks T st),
   match snd (_reorder_placemarks T st) with
   | Raise e => Raise e
   | Ret _ =>
       match fst (_reorder_placemarks T st) with
       | [] => Raise IndexError
       | first :: _ =>
           Ret (kml_root name desc
                  (group (Folder first) [] (fst (_reorder_placemarks T st))),
                length (List.filter exported (fst (_reorder_placemarks T st))))
       end
   end).
Proof.
  unfold _get_kml_tree.
  pose proof (reorder_flags T st) as Hflags.
  destruct (_reorder_placemarks T st) as [st' [u|e]]; cbn in *;
    [|reflexivity].
  f_equal. destruct st' as [|first rest]; [reflexivity|].
  destruct (visit_all_group (first :: rest)
              {| document := []; folder_name_text := Folder first;
                 folder := []; nb_files_to_export := 0 |}
              (Hflags u eq_refl)) as (w' & Hrun & Hf & Hn).
  cbn [document folder_name_text folder nb_files_to_export] in *.
  rewrite Hrun. cbn [bind]. unfold kml_root. rewrite Hf, Hn.
  reflexivity.
Qed.

Lemma get_kml_string_fst name desc T st :
  fst (_get_kml_string name desc T st) = fst (_reorder_placemarks T st).
Proof.
  unfold _get_kml_string. now rewrite get_kml_tree_eq.
Qed.

Lemma save_kml_file_fst name desc T st path :
  fst (save_kml_file name desc T st path) = fst (_reorder_placemarks T st).
Proof.
  unfold save_kml_file.
  rewrite (surjective_pairing (_get_kml_string name desc T st)).
  cbn. apply get_kml_string_fst.
Qed.

Lemma group_tags l : forall cur pms,
  Forall (fun x => tag_of x = "Folder") (group cur pms l).
Proof.
  induction l as [|c l IH]; intros cur pms; cbn [group].
  - repeat constructor.
  - destruct (negb (Folder c =? cur)%string); [constructor|]; auto.
Qed.

Lemma filter_tag_all (t : string) (l : list Element) :
  Forall (fun x => tag_of x = t) l ->
  List.filter (fun x => (tag_of x =? t)%string) l = l.
Proof.
  induction 1 as [|x l Hx _ IH]; cbn; [reflexivity|].
  now rewrite Hx, String.eqb_refl, IH.
Qed.

Lemma folders_in_kml_root name desc folders :
  Forall (fun x => tag_of x = "Folder") folders ->
  folders_in (kml_root name desc folders) = folders.
Proof.
  intros H. unfold folders_in, kml_root; cbn. now apply filter_tag_all.
Qed.

Lemma point_coordinates_Placemark_element c :
  point_coordinates (Placemark_element c)
  = Some (PyFloat.float_repr (Longitude c) ++ ","
          ++ PyFloat.float_repr (Latitude c))%string.
Proof.
  unfold point_coordinates, find_child, Placemark_element.
  destruct (negb (Name c =? "")%string); [|reflexivity].
  now destruct (os_path_split (Name c)).
Qed.

Lemma Ret_pair_inv {A B} (a c : A) (b d : B) :
  Ret (a, b) = Ret (c, d) -> a = c /\ b = d.
Proof. intros H. split; congruence. Qed.

(** When the tree is built, its placemarks are those of the exported
    records of the list left behind, in the order of the list. *)
Lemma get_kml_tree_placemarks name desc T st root n :
  snd (_get_kml_tree name desc T st) = Ret (root, n) ->
  all_placemarks (folders_in root)
  = map Placemark_element
      (List.filter exported (fst (_get_kml_tree name desc T st))) /\
  n = length (List.filter exported (fst (_get_kml_tree name desc T st))).
Proof.
  rewrite get_kml_tree_eq. cbn [fst snd].
  destruct (snd (_reorder_placemarks T st)); [|discriminate].
  destruct (fst (_reorder_placemarks T st)) as [|first rest]; [discriminate|].
  intros [<- <-]%Ret_pair_inv. split; [|reflexivity].
  rewrite folders_in_kml_root by apply group_tags.
  now rewrite all_placemarks_group by constructor.
Qed.

(** The only exception of the filter is the [ValueError] of [math]. *)
Lemma distance_raises c k e : distance c k = Raise e -> e = ValueError.
Proof.
  unfold distance, _distance_between_placemarks, math_sin, math_cos,
    math_sqrt, bind.
  repeat match goal with
         | |- context [if ?b then _ else _] => destruct b
         end; congruence.
Qed.

Lemma scan_kept_raises T c kept e :
  scan_kept T c kept = Raise e -> e = ValueError.
Proof.
  induction kept as [|k kept IH]; cbn; [discriminate|].
  destruct (distance c k) as [d|e'] eqn:Hd; cbn.
  - destruct (d <? T); [discriminate | exact IH].
  - intros [= <-]. exact (distance_raises _ _ _ Hd).
Qed.

Lemma filter_loop_raises T l : forall kept n e,
  snd (filter_loop T kept n l) = Raise e -> e = ValueError.
Proof.
  induction l as [|c l IH]; intros kept n e; cbn; [discriminate|].
  destruct (scan_kept T (set_Export c true) kept) as [[|]|e'] eqn:Hs.
  - specialize (IH (kept ++ [set_Export c true]) (S n) e).
    now destruct (filter_loop T _ (S n) l).
  - specialize (IH kept n e). now destruct (filter_loop T kept n l).
  - cbn. intros [= <-]. exact (scan_kept_raises _ _ _ _ Hs).
Qed.

(** ** The claims *)

(** C1. After [_filter_placemarks] has run with threshold [T], a record
    flagged [Export = True] is at a distance not below [T] from every
    record flagged [Export = True] that precedes it in the list: that
    distance was computed, from the later record to the earlier one, and
    [distance < T] was false, which is [T <= distance] when neither is
    NaN.  Only this direction, later against earlier, is established. *)
Theorem filter_keeps_later_apart (T : float) (st st' : list placemark)
    (n : nat) :
  _filter_placemarks T st = (st', Ret n) ->
  forall (i j : nat) (k c : placemark), (i < j)%nat ->
    st' !! i = Some k -> st' !! j = Some c ->
    Export k = Some true -> Export c = Some true ->
    exists d,
      _distance_between_placemarks
        (Latitude c) (Longitude c) (Latitude k) (Longitude k) = Ret d /\
      (d <? T) = false /\
      (is_nan d = false -> is_nan T = false -> (T <=? d) = true).
Proof.
  intros Hrun i j k c Hij Hi Hj Hk Hc.
  destruct (filter_loop_spec _ _ _ _ _ _ Hrun) as (_ & _ & _ & Hpairs).
  destruct (Hpairs i j k c Hij Hi Hj) as [d [Hd Hlt]];
    [now apply exported_iff | now apply exported_iff |].
  exists d. repeat split; [exact Hd | exact Hlt |].
  intros Nd NT. now apply nlt_leb.
Qed.

(** C7. Running [_filter_placemarks] again on the list it left, with the
    same threshold, gives the same list, flags and count (or the same
    exception); and the flags and the count depend on the coordinates in
    list order and on the threshold only. *)
Theorem filter_idempotent (T : float) (st : list placemark) :
  _filter_placemarks T (fst (_filter_placemarks T st))
  = _filter_placemarks T st /\
  (forall st2, map coords st = map coords st2 ->
     snd (_filter_placemarks T st) = snd (_filter_placemarks T st2) /\
     (forall n, snd (_filter_placemarks T st) = Ret n ->
        map Export (fst (_filter_placemarks T st))
        = map Export (fst (_filter_placemarks T st2)))).
Proof.
  split.
  - apply filter_loop_idem.
  - intros st2 H. now apply filter_loop_coords.
Qed.

Lemma filter_zero_all st :
  (forall c k, In c st -> In k st -> far 0 c k) ->
  _filter_placemarks 0 st
  = (map (fun c => set_Export c true) st, Ret (length st)).
Proof.
  intros H. unfold _filter_placemarks. rewrite filter_loop_zero; auto.
Qed.

Lemma filter_exported_all l :
  List.filter exported (map (fun c => set_Export c true) l)
  = map (fun c => set_Export c true) l.
Proof. induction l as [|c l IH]; cbn; congruence. Qed.

(** C5. The comparison with the threshold is strict.  With threshold 0,
    when the distances between the records are computed and none is below
    zero, every record is flagged [Export = True], the count is the length
    of the list, and the document of a non-empty store holds as many
    [Placemark] elements as the store has records.  For any threshold, a
    candidate whose distance to every kept record equals the threshold is
    flagged [Export = True]. *)
Theorem threshold_is_strict (T : float) :
  (forall st,
     (forall c k, In c st -> In k st ->
        exists d, _distance_between_placemarks
                    (Latitude c) (Longitude c) (Latitude k) (Longitude k)
                  = Ret d /\ (d <? 0) = false) ->
     _filter_placemarks 0 st
     = (map (fun c => set_Export c true) st, Ret (length st)) /\
     (st <> [] -> forall name desc, exists root,
        snd (_get_kml_tree name desc 0 st) = Ret (root, length st) /\
        length (all_placemarks (folders_in root)) = length st)) /\
  (forall l1 c l2 s1 m,
     _filter_placemarks T l1 = (s1, Ret m) ->
     (forall k, In k s1 -> Export k = Some true ->
        exists d, _distance_between_placemarks
                    (Latitude c) (Longitude c) (Latitude k) (Longitude k)
                  = Ret d /\ (d =? T) = true) ->
     exists s2 r,
       _filter_placemarks T (l1 ++ c :: l2)
       = (s1 ++ set_Export c true :: s2, r)).
Proof.
  split.
  - intros st Hpairs. split; [now apply filter_zero_all|].
    intros Hne name desc.
    assert (Hsorted : _filter_placemarks 0 (sorted key_lt sort_key st)
              = (map (fun c => set_Export c true) (sorted key_lt sort_key st),
                 Ret (length (sorted key_lt sort_key st)))).
    { apply filter_zero_all. intros c k Hc Hk.
      apply Hpairs; eapply Permutation_in;
        try apply sorted_Permutation; assumption. }
    assert (Hlen : length (sorted key_lt sort_key st) = length st)
      by apply Permutation_length, sorted_Permutation.
    destruct (snd (_get_kml_tree name desc 0 st)) as [[root n]|e] eqn:Htree.
    + destruct (get_kml_tree_placemarks _ _ _ _ _ _ Htree) as [Hp Hn].
      rewrite get_kml_tree_eq in Hp, Hn. cbn [fst] in Hp, Hn.
      rewrite reorder_fst, Hsorted in Hp, Hn. cbn [fst] in Hp, Hn.
      rewrite filter_exported_all in Hp, Hn.
      rewrite length_map, Hlen in Hn. subst n.
      exists root. split; [reflexivity|].
      now rewrite Hp, !length_map.
    + exfalso. rewrite get_kml_tree_eq in Htree. cbn [snd] in Htree.
      rewrite reorder_snd, reorder_fst, Hsorted in Htree.
      cbn [fst snd bind] in Htree.
      destruct (sorted key_lt sort_key st) as [|x l] eqn:Es.
      * destruct st; [congruence | discriminate].
      * discriminate.
  - intros l1 c l2 s1 m Hrun Hexact.
    unfold _filter_placemarks in *.
    rewrite filter_loop_app, Hrun. cbn [app].
    assert (Hscan : scan_kept T (set_Export c true)
                      (List.filter exported s1) = Ret true).
    { apply scan_kept_exact. intros k [Hk Hx]%filter_In.
      apply exported_iff in Hx. exact (Hexact k Hk Hx). }
    cbn [filter_loop]. rewrite Hscan.
    destruct (filter_loop T _ (S m) l2) as [s2 r].
    now exists s2, r.
Qed.

Lemma may_precede_folder a b : may_precede a b -> folder_ascending a b.
Proof.
  unfold may_precede, folder_ascending. intros H.
  destruct (String.ltb (Folder b) (Folder a)) eqn:E; [|reflexivity].
  assert (K : key_lt (sort_key b) (sort_key a) = true).
  { apply key_lt_cases. left. cbn. unfold String.ltb in E.
    now destruct (String.compare (Folder b) (Folder a)). }
  congruence.
Qed.

Lemma StronglySorted_folder l :
  StronglySorted may_precede l -> StronglySorted folder_ascending l.
Proof.
  induction 1 as [|a l _ IH Ha]; constructor; [exact IH|].
  eapply List.Forall_impl; [|exact Ha]. intros b. apply may_precede_folder.
Qed.

Lemma members_none f l :
  (forall c, In c l -> Folder c = f -> Export c = Some false) ->
  members f l = [].
Proof.
  induction l as [|c l IH]; intros H; [reflexivity|].
  unfold members in *. cbn [List.filter].
  rewrite IH by (intros c' Hc'; apply H; now right).
  destruct (String.eqb_spec (Folder c) f) as [E|E];
    [|now rewrite andb_false_r].
  unfold exported. now rewrite (H c (or_introl eq_refl) E).
Qed.

(** C6. In the document that is built, the [Folder] elements are those of
    [group]: a new one starts exactly when the folder of a record differs
    from the current label.  On the sorted store they are one per distinct
    folder value, none repeated; the element of a folder value holds the
    [Placemark] elements of the exported records of that value, so the
    folder of a value whose records are all suppressed is there, without
    placemarks.  Latitudes are numbers (not NaN). *)
Theorem one_folder_per_folder_value (name desc : string) (T : float)
    (st : list placemark) (root : Element) (n : nat) :
  Forall numeric st ->
  snd (_get_kml_tree name desc T st) = Ret (root, n) ->
  (forall first rest,
     fst (_get_kml_tree name desc T st) = first :: rest ->
     folders_in root = group (Folder first) [] (first :: rest)) /\
  exists labels : list string,
    NoDup labels /\
    (forall f, In f labels <->
       exists c, In c (fst (_get_kml_tree name desc T st)) /\ Folder c = f) /\
    root = kml_root name desc
             (map (folder_of (fst (_get_kml_tree name desc T st))) labels) /\
    (forall f, In f labels ->
       (forall c, In c (fst (_get_kml_tree name desc T st)) ->
          Folder c = f -> Export c = Some false) ->
       In (Folder_element f []) (folders_in root)).
Proof.
  intros Hnum. rewrite get_kml_tree_eq. cbn [fst snd].
  pose proof (StronglySorted_folder _ (reorder_StronglySorted T st Hnum)) as Hs.
  destruct (snd (_reorder_placemarks T st)); [|discriminate].
  remember (fst (_reorder_placemarks T st)) as st' eqn:Est. clear Est.
  destruct st' as [|first rest] eqn:E; [discriminate|]. rewrite <- E in *.
  intros [<- _]%Ret_pair_inv.
  split.
  { intros first' rest' E'.
    rewrite folders_in_kml_root by apply group_tags.
    rewrite E in E'. apply cons_eq_inv in E' as [<- <-]. now rewrite E. }
  destruct (group_sorted st' (Folder first) [] Hs) as (labels & Hg & Hnd & Hin).
  { intros c Hc. rewrite E in Hc, Hs. destruct Hc as [<-|Hc].
    - apply string_ltb_irrefl.
    - inversion Hs as [|? ? _ Hf]; subst.
      rewrite List.Forall_forall in Hf. apply (Hf c Hc). }
  cbn [app] in Hg.
  assert (Hg' : group (Folder first) [] st'
                = map (folder_of st') (Folder first :: labels)) by exact Hg.
  exists (Folder first :: labels). split; [exact Hnd|]. split; [|split].
  - intros f. cbn [In]. rewrite Hin. split.
    + intros [<-|[_ Hf]].
      * exists first. split; [rewrite E; now left | reflexivity].
      * apply in_map_iff in Hf as (c & Hc & Hcl). now exists c.
    + intros (c & Hc & <-).
      destruct (String.eqb_spec (Folder first) (Folder c)); [now left|].
      right. split; [congruence|]. now apply in_map.
  - now rewrite Hg'.
  - intros f Hf Hall.
    rewrite folders_in_kml_root by apply group_tags. rewrite Hg'.
    apply in_map_iff. exists f. split; [|exact Hf].
    unfold folder_of. now rewrite (members_none f st' Hall).
Qed.

(** C8. For every exported record the document holds a [Placemark] whose
    [Point] has the coordinate text [str(Longitude)], a comma,
    [str(Latitude)], the stored floats rendered by [str] as they are; a
    placemark with latitude 45.5 and longitude -73.5 gives ["-73.5,45.5"]. *)
Theorem coordinates_longitude_first (name desc : string) (T : float) :
  (forall st root n,
     snd (_get_kml_tree name desc T st) = Ret (root, n) ->
     map point_coordinates (all_placemarks (folders_in root))
     = map (fun c => Some (PyFloat.float_repr (Longitude c) ++ ","
                           ++ PyFloat.float_repr (Latitude c))%string)
         (List.filter exported (fst (_get_kml_tree name desc T st)))) /\
  (forall nm fd, exists root,
     snd (_get_kml_tree name desc T [mk_placemark 45.5 (-73.5) nm fd None])
     = Ret (root, 1%nat) /\
     map point_coordinates (all_placemarks (folders_in root))
     = [Some "-73.5,45.5"]).
Proof.
  assert (Hall : forall st root n,
     snd (_get_kml_tree name desc T st) = Ret (root, n) ->
     map point_coordinates (all_placemarks (folders_in root))
     = map (fun c => Some (PyFloat.float_repr (Longitude c) ++ ","
                           ++ PyFloat.float_repr (Latitude c))%string)
         (List.filter exported (fst (_get_kml_tree name desc T st)))).
  { intros st root n Htree.
    destruct (get_kml_tree_placemarks _ _ _ _ _ _ Htree) as [-> _].
    rewrite map_map. apply map_ext. intros c.
    apply point_coordinates_Placemark_element. }
  split; [exact Hall|].
  intros nm fd.
  destruct (snd (_get_kml_tree name desc T [mk_placemark 45.5 (-73.5) nm fd None]))
    as [[root n]|e] eqn:Htree; [|discriminate].
  pose proof (Hall _ _ _ Htree) as Hc.
  destruct (get_kml_tree_placemarks _ _ _ _ _ _ Htree) as [_ Hn].
  assert (Hfst : fst (_get_kml_tree name desc T
                        [mk_placemark 45.5 (-73.5) nm fd None])
                 = [mk_placemark 45.5 (-73.5) nm fd (Some true)])
    by (rewrite get_kml_tree_eq; reflexivity).
  rewrite Hfst in Hc, Hn.
  change (List.filter exported [mk_placemark 45.5 (-73.5) nm fd (Some true)])
    with [mk_placemark 45.5 (-73.5) nm fd (Some true)] in Hc, Hn.
  cbn [length] in Hn. subst n. exists root. split; [reflexivity|].
  rewrite Hc. cbn [map Longitude Latitude].
  assert (R1 : PyFloat.float_repr (-73.5) = "-73.5") by (vm_compute; reflexivity).
  assert (R2 : PyFloat.float_repr 45.5 = "45.5") by (vm_compute; reflexivity).
  now rewrite R1, R2.
Qed.

(** C10. Rendering sorts and flags by itself: [_get_kml_string] and
    [save_kml_file] leave in the store the list that [_reorder_placemarks]
    computes from it, the sorted list with the flags of [_filter_placemarks];
    the walk never meets a record without its flag ([KeyError]); and after a
    render that returns its string every record has a flag and the list is
    ascending by (folder, latitude), latitudes being numbers. *)
Theorem render_reorders_and_flags (name desc : string) (T : float)
    (st : list placemark) (path : string) :
  fst (_get_kml_string name desc T st) = fst (_reorder_placemarks T st) /\
  fst (save_kml_file name desc T st path) = fst (_reorder_placemarks T st) /\
  fst (_reorder_placemarks T st)
  = fst (_filter_placemarks T (sorted key_lt sort_key st)) /\
  snd (_get_kml_tree name desc T st) <> Raise KeyError /\
  (forall kml_string,
     snd (_get_kml_string name desc T st) = Ret kml_string ->
     Forall (fun c => exists b, Export c = Some b)
       (fst (_get_kml_string name desc T st))) /\
  (Forall numeric st ->
   forall (i j : nat) a b, (i < j)%nat ->
     fst (_get_kml_string name desc T st) !! i = Some a ->
     fst (_get_kml_string name desc T st) !! j = Some b ->
     String.leb (Folder a) (Folder b) = true /\
     (Folder a = Folder b -> (Latitude a <=? Latitude b) = true)).
Proof.
  split; [apply get_kml_string_fst|].
  split; [apply save_kml_file_fst|].
  split; [apply reorder_fst|].
  assert (Hsnd : snd (_get_kml_string name desc T st)
    = (let* tree := snd (_get_kml_tree name desc T st) in
       let xml_string := ET_tostring (fst tree) in
       match minidom_toprettyxml xml_string with
       | Ret pretty => Ret pretty
       | Raise e =>
           if isinstance_ValueError e || isinstance_TypeError e
           then Ret xml_string else Raise e
       end)).
  { unfold _get_kml_string.
    now destruct (_get_kml_tree name desc T st). }
  split; [|split].
  - rewrite get_kml_tree_eq. cbn [snd].
    destruct (snd (_reorder_placemarks T st)) as [u|e] eqn:Er.
    + destruct (fst (_reorder_placemarks T st)); discriminate.
    + rewrite reorder_snd in Er. unfold _filter_placemarks in Er.
      destruct (snd (filter_loop T [] 0 (sorted key_lt sort_key st)))
        as [m|e'] eqn:Ef; [discriminate|].
      cbn in Er. injection Er as <-.
      rewrite (filter_loop_raises _ _ _ _ _ Ef). discriminate.
  - intros kml_string Hs. rewrite get_kml_string_fst.
    rewrite Hsnd, get_kml_tree_eq in Hs. cbn [snd] in Hs.
    destruct (snd (_reorder_placemarks T st)) as [u|e] eqn:Er;
      [|discriminate].
    eapply List.Forall_impl; [|apply (reorder_flags T st u Er)].
    intros c Hc. cbn in Hc. destruct (Export c) as [b|]; [now exists b | congruence].
  - intros Hnum i j a b Hij. rewrite get_kml_string_fst.
    now apply reorder_ascending.
Qed.

(** C2. On the empty store the render does not return a document: reading
    [_placemark_list[0]] raises [IndexError], which escapes
    [_get_kml_string] and [save_kml_file]; the code has no check of its
    own for the empty store. *)
Theorem empty_store_raises_IndexError (name desc : string) (T : float)
    (path : string) :
  _get_kml_tree name desc T [] = ([], Raise IndexError) /\
  _get_kml_string name desc T [] = ([], Raise IndexError) /\
  save_kml_file name desc T [] path = ([], Raise IndexError).
Proof. repeat split. Qed.

(** C9 (amended). When the document string has been built,
    [save_kml_file] returns [True] if the write succeeds and [False] if
    the write raises an [OSError] (permission denied, missing directory,
    disk full); no [OSError] of the write reaches the caller.  An exception
    of another class raised by the write is not caught. *)
Theorem save_kml_file_reports_OSError (name desc : string) (T : float)
    (st : list placemark) (path kml_string : string) :
  snd (_get_kml_string name desc T st) = Ret kml_string ->
  (write_file path kml_string = None ->
   snd (save_kml_file name desc T st path) = Ret true) /\
  (forall e, write_file path kml_string = Some e ->
     isinstance_OSError e = true ->
     snd (save_kml_file name desc T st path) = Ret false) /\
  (forall e, write_file path kml_string = Some e ->
     isinstance_OSError e = false ->
     snd (save_kml_file name desc T st path) = Raise e).
Proof.
  intros Hs. unfold save_kml_file.
  destruct (_get_kml_string name desc T st) as [l r]. cbn in *. subst r.
  cbn. repeat split.
  - now intros ->.
  - now intros e -> ->.
  - now intros e -> ->.
Qed.

(** ** Further properties of the filter *)

Lemma filter_head (T : float) (c : placemark) (l : list placemark) :
  exists rest,
    fst (_filter_placemarks T (c :: l)) = set_Export c true :: rest.
Proof.
  unfold _filter_placemarks. cbn.
  destruct (filter_loop T [set_Export c true] 1 l) as [rest r].
  now exists rest.
Qed.

(** X1. The first record of the list is flagged [Export = True] whatever the
    threshold and the library do, since the kept list starts empty; so a
    store of one record always renders one [Placemark]. *)
Theorem first_record_is_exported (T : float) (c : placemark) :
  (forall l, exists rest,
     fst (_filter_placemarks T (c :: l)) = set_Export c true :: rest) /\
  (forall name desc,
     _get_kml_tree name desc T [c]
     = ([set_Export c true],
        Ret (kml_root name desc
               [Folder_element (Folder c)
                  [Placemark_element (set_Export c true)]],
             1%nat))).
Proof.
  split; [apply filter_head|].
  intros name desc. unfold _get_kml_tree, _reorder_placemarks. cbn.
  unfold visit. cbn. rewrite String.eqb_refl. reflexivity.
Qed.

(** X2. Neither the filter nor the reordering nor a render adds, drops or
    alters what [_add_placemark] stored, whether they return or raise: the
    filter keeps the records in place and changes the key ["Export"] only;
    the reordering and the renders permute them. *)
Theorem stored_data_is_kept (name desc : string) (T : float)
    (st : list placemark) (path : string) :
  map data (fst (_filter_placemarks T st)) = map data st /\
  Permutation (map data (fst (_reorder_placemarks T st))) (map data st) /\
  Permutation (map data (fst (_get_kml_string name desc T st))) (map data st) /\
  Permutation (map data (fst (save_kml_file name desc T st path)))
    (map data st).
Proof.
  assert (H : Permutation (map data (fst (_reorder_placemarks T st)))
                (map data st)).
  { rewrite reorder_data. apply Permutation_map, sorted_Permutation. }
  split; [apply filter_loop_data|]. split; [exact H|].
  now rewrite get_kml_string_fst, save_kml_file_fst.
Qed.

Lemma filter_exported_length (l : list placemark) :
  (length (List.filter exported l) <= length l)%nat.
Proof.
  induction l as [|c l IH]; cbn; [lia|]. destruct (exported c); cbn; lia.
Qed.

(** X3. The count that [_filter_placemarks] returns is the number of
    records it flagged [Export = True]; it is at most the length of the
    list and at least 1 on a non-empty list, and every record has a flag.
    The count of the render, [nb_files_to_export], is the count of the
    filter on the sorted list and the number of [Placemark] elements. *)
Theorem export_count_counts_flags (T : float) :
  (forall st st' n,
     _filter_placemarks T st = (st', Ret n) ->
     n = length (List.filter exported st') /\
     (n <= length st)%nat /\
     (st <> [] -> (1 <= n)%nat) /\
     Forall (fun c => exists b, Export c = Some b) st') /\
  (forall name desc st root k,
     snd (_get_kml_tree name desc T st) = Ret (root, k) ->
     snd (_filter_placemarks T (sorted key_lt sort_key st)) = Ret k /\
     k = length (all_placemarks (folders_in root))).
Proof.
  split.
  - intros st st' n Hrun.
    destruct (filter_loop_spec _ _ _ _ _ _ Hrun) as (Hdef & Hn & _ & _).
    cbn in Hn. subst n.
    assert (Hlen : length st' = length st).
    { rewrite <- (length_map data st'), <- (length_map data st).
      f_equal. change st' with (fst (st', @Ret nat (length (List.filter exported st')))).
      rewrite <- Hrun. apply filter_loop_data. }
    split; [reflexivity|]. split; [|split].
    + rewrite <- Hlen. apply filter_exported_length.
    + intros Hne. destruct st as [|c l]; [congruence|].
      destruct (filter_head T c l) as [rest Hrest].
      rewrite Hrun in Hrest. cbn in Hrest. subst st'. cbn. lia.
    + eapply List.Forall_impl; [|exact Hdef].
      intros c Hc. cbn in Hc.
      destruct (Export c) as [b|]; [now exists b | congruence].
  - intros name desc st root k Htree.
    destruct (get_kml_tree_placemarks _ _ _ _ _ _ Htree) as [Hp Hk].
    split; [|now rewrite Hp, length_map].
    rewrite get_kml_tree_eq in Htree, Hk. cbn [fst snd] in Htree, Hk.
    rewrite reorder_snd, reorder_fst in *.
    destruct (_filter_placemarks T (sorted key_lt sort_key st))
      as [st' [m|e]] eqn:Hrun; cbn [fst snd bind] in *; [|discriminate].
    destruct (filter_loop_spec _ _ _ _ _ _ Hrun) as (_ & Hm & _ & _).
    cbn in Hm. congruence.
Qed.

Lemma filter_loop_suppressed T l : forall kept n l' m,
  filter_loop T kept n l = (l', Ret m) ->
  forall (j : nat) c, l' !! j = Some c -> Export c = Some false ->
    (exists k d, In k kept /\ distance c k = Ret d /\ (d <? T) = true) \/
    (exists (i : nat) k d, (i < j)%nat /\ l' !! i = Some k /\
       Export k = Some true /\ distance c k = Ret d /\ (d <? T) = true).
Proof.
  induction l as [|c0 l IH]; intros kept n l' m Hrun j c Hj Hc.
  - cbn in Hrun. injection Hrun as <- _. discriminate Hj.
  - cbn in Hrun.
    destruct (scan_kept T (set_Export c0 true) kept) as [[|]|e] eqn:Hscan.
    + destruct (filter_loop T (kept ++ [set_Export c0 true]) (S n) l)
        as [rest r] eqn:Hrest.
      injection Hrun as <- ->.
      destruct j as [|j]; cbn in Hj.
      { injection Hj as <-. discriminate Hc. }
      destruct (IH _ _ _ _ Hrest j c Hj Hc)
        as [(k & d & Hk & Hd & Hlt)|(i & k & d & Hi & Hik & Hek & Hd & Hlt)].
      * apply in_app_or in Hk as [Hk|[<-|[]]].
        -- left. now exists k, d.
        -- right. exists 0%nat, (set_Export c0 true), d.
           repeat split; auto. lia.
      * right. exists (S i), k, d. repeat split; auto. lia.
    + destruct (filter_loop T kept n l) as [rest r] eqn:Hrest.
      injection Hrun as <- ->.
      destruct j as [|j]; cbn in Hj.
      { injection Hj as <-. left.
        destruct (scan_kept_false _ _ _ Hscan) as (k & d & Hk & Hd & Hlt).
        exists k, d. repeat split; auto. }
      destruct (IH _ _ _ _ Hrest j c Hj Hc)
        as [(k & d & Hk & Hd & Hlt)|(i & k & d & Hi & Hik & Hek & Hd & Hlt)].
      * left. now exists k, d.
      * right. exists (S i), k, d. repeat split; auto. lia.
    + discriminate Hrun.
Qed.

(** X4. A record is suppressed only for a reason: when the filter returns,
    every record flagged [Export = False] has an earlier record flagged
    [Export = True] whose computed distance to it is below the threshold.
    Together with C1 this characterises the flags. *)
Theorem suppressed_is_close_to_an_exported (T : float)
    (st st' : list placemark) (n : nat) :
  _filter_placemarks T st = (st', Ret n) ->
  forall (j : nat) (c : placemark),
    st' !! j = Some c -> Export c = Some false ->
    exists (i : nat) (k : placemark) (d : float),
      (i < j)%nat /\ st' !! i = Some k /\ Export k = Some true /\
      _distance_between_placemarks
        (Latitude c) (Longitude c) (Latitude k) (Longitude k) = Ret d /\
      (d <? T) = true.
Proof.
  intros Hrun j c Hj Hc.
  destruct (filter_loop_suppressed _ _ _ _ _ _ Hrun j c Hj Hc)
    as [(k & d & [] & _)|H]; exact H.
Qed.

(** ** What makes a render fail *)

Lemma scan_kept_raise_inv T c kept e :
  scan_kept T c kept = Raise e ->
  exists k, In k kept /\ distance c k = Raise e.
Proof.
  induction kept as [|k kept IH]; cbn; [discriminate|].
  destruct (distance c k) as [d|e'] eqn:Hd; cbn.
  - destruct (d <? T); [discriminate|].
    intros H. destruct (IH H) as (k' & Hk & Hk'). exists k'. auto.
  - intros [= <-]. exists k. auto.
Qed.

Lemma filter_loop_raise_inv T l : forall kept n e,
  snd (filter_loop T kept n l) = Raise e ->
  exists c k, In c l /\
    (In k kept \/ exists k0, In k0 l /\ data k0 = data k) /\
    distance c k = Raise e.
Proof.
  induction l as [|c0 l IH]; intros kept n e; cbn; [discriminate|].
  destruct (scan_kept T (set_Export c0 true) kept) as [[|]|e'] eqn:Hscan.
  - specialize (IH (kept ++ [set_Export c0 true]) (S n) e).
    destruct (filter_loop T (kept ++ [set_Export c0 true]) (S n) l)
      as [rest r]. cbn in *. intros H.
    destruct (IH H) as (c & k & Hc & Hk & Hd).
    exists c, k. split; [auto|]. split; [|exact Hd].
    destruct Hk as [Hk|(k0 & Hk0 & Hdk)].
    + apply in_app_or in Hk as [Hk|[<-|[]]]; [now left|].
      right. exists c0. split; [now left | reflexivity].
    + right. exists k0. auto.
  - specialize (IH kept n e).
    destruct (filter_loop T kept n l) as [rest r]. cbn in *. intros H.
    destruct (IH H) as (c & k & Hc & Hk & Hd).
    exists c, k. split; [auto|]. split; [|exact Hd].
    destruct Hk as [Hk|(k0 & Hk0 & Hdk)]; [now left|].
    right. exists k0. auto.
  - cbn. intros [= <-].
    destruct (scan_kept_raise_inv _ _ _ _ Hscan) as (k & Hk & Hd).
    exists c0, k. split; [now left|]. split; [now left|].
    rewrite <- Hd. now apply distance_data.
Qed.

Lemma In_data_Permutation (l1 l2 : list placemark) (c : placemark) :
  Permutation (map data l1) (map data l2) -> In c l1 ->
  exists c', In c' l2 /\ data c' = data c.
Proof.
  intros Hp Hc.
  assert (H : In (data c) (map data l2)).
  { eapply Permutation_in; [exact Hp|]. now apply in_map. }
  apply in_map_iff in H as (c' & Hd & Hc'). now exists c'.
Qed.

(** X5. The tree is built unless the store is empty ([IndexError], from
    [_placemark_list[0]]) or the distance between two stored records cannot
    be computed ([ValueError], from [math]); no other exception leaves
    [_get_kml_tree].  So a non-empty store whose pairwise distances are all
    computed always gives a tree. *)
Theorem render_fails_only_on_empty_or_distance (name desc : string)
    (T : float) (st : list placemark) :
  (forall e,
     snd (_get_kml_tree name desc T st) = Raise e ->
     (st = [] /\ e = IndexError) \/
     (e = ValueError /\
      exists c k, In c st /\ In k st /\
        _distance_between_placemarks
          (Latitude c) (Longitude c) (Latitude k) (Longitude k)
        = Raise ValueError)) /\
  (st <> [] ->
   (forall c k, In c st -> In k st ->
      exists d, _distance_between_placemarks
                  (Latitude c) (Longitude c) (Latitude k) (Longitude k)
                = Ret d) ->
   exists root n, snd (_get_kml_tree name desc T st) = Ret (root, n)).
Proof.
  assert (Hfail : forall e,
     snd (_get_kml_tree name desc T st) = Raise e ->
     (st = [] /\ e = IndexError) \/
     (e = ValueError /\
      exists c k, In c st /\ In k st /\ distance c k = Raise ValueError)).
  { intros e. rewrite get_kml_tree_eq. cbn [snd].
    destruct (snd (_reorder_placemarks T st)) as [u|e'] eqn:Hr.
    - destruct (fst (_reorder_placemarks T st)) as [|first rest] eqn:Hf;
        [|discriminate].
      intros [= <-]. left. split; [|reflexivity].
      pose proof (reorder_data T st) as Hd. rewrite Hf in Hd. cbn in Hd.
      symmetry in Hd. apply map_eq_nil in Hd.
      pose proof (sorted_Permutation st) as Hp. rewrite Hd in Hp.
      now apply Permutation_nil.
    - intros [= <-]. right. rewrite reorder_snd in Hr.
      destruct (snd (_filter_placemarks T (sorted key_lt sort_key st)))
        as [m|e''] eqn:Hs; [discriminate|]. cbn in Hr. injection Hr as <-.
      pose proof (filter_loop_raises _ _ _ _ _ Hs) as ->.
      split; [reflexivity|].
      destruct (filter_loop_raise_inv _ _ _ _ _ Hs)
        as (c & k & Hc & [[]|(k0 & Hk0 & Hdk)] & Hd).
      assert (Hp : Permutation (map data (sorted key_lt sort_key st))
                     (map data st))
        by apply Permutation_map, sorted_Permutation.
      destruct (In_data_Permutation _ _ _ Hp Hc) as (c' & Hc' & Hdc).
      destruct (In_data_Permutation _ _ _ Hp Hk0) as (k' & Hk' & Hdk').
      exists c', k'. split; [auto|]. split; [auto|].
      rewrite <- Hd. apply distance_data; congruence. }
  split; [exact Hfail|].
  intros Hne Hall.
  destruct (snd (_get_kml_tree name desc T st)) as [[root n]|e] eqn:Ht;
    [now exists root, n|].
  destruct (Hfail e eq_refl) as [[-> _]|(_ & c & k & Hc & Hk & Hd)];
    [congruence|].
  destruct (Hall c k Hc Hk) as [d Hd']. unfold distance in Hd. congruence.
Qed.

(** ** Rendering again *)

Lemma insert_sorted_head (x : placemark) (l : list placemark) :
  Forall (may_precede x) l -> insert_sorted key_lt sort_key x l = x :: l.
Proof.
  destruct l as [|y l]; [reflexivity|]. intros H.
  inversion H as [|? ? Hy _]; subst. cbn. unfold may_precede in Hy.
  now rewrite Hy.
Qed.

Lemma sorted_fixpoint (l : list placemark) :
  StronglySorted may_precede l -> sorted key_lt sort_key l = l.
Proof.
  induction 1 as [|x l Hs IH Hx]; cbn; [reflexivity|].
  rewrite IH. now apply insert_sorted_head.
Qed.

Lemma reorder_again (T : float) (st : list placemark) :
  Forall numeric st ->
  _reorder_placemarks T (fst (_reorder_placemarks T st))
  = _reorder_placemarks T st.
Proof.
  intros Hnum.
  pose proof (reorder_StronglySorted T st Hnum) as Hs.
  unfold _reorder_placemarks at 1.
  rewrite (sorted_fixpoint _ Hs), reorder_fst.
  unfold _filter_placemarks. rewrite filter_loop_idem.
  reflexivity.
Qed.

(** X6. Rendering is repeatable: when no latitude is NaN, rendering the
    store that a render left behind gives the same store, the same string
    and the same outcome of the save; a second render neither reorders nor
    reflags anything. *)
Theorem render_is_repeatable (name desc : string) (T : float)
    (st : list placemark) (path : string) :
  Forall numeric st ->
  _reorder_placemarks T (fst (_reorder_placemarks T st))
  = _reorder_placemarks T st /\
  _get_kml_string name desc T (fst (_get_kml_string name desc T st))
  = _get_kml_string name desc T st /\
  save_kml_file name desc T (fst (save_kml_file name desc T st path)) path
  = save_kml_file name desc T st path.
Proof.
  intros Hnum. pose proof (reorder_again T st Hnum) as H.
  split; [exact H|].
  rewrite get_kml_string_fst, save_kml_file_fst.
  unfold save_kml_file, _get_kml_string, _get_kml_tree.
  now rewrite H.
Qed.

(** ** Folders and latitudes that are NaN *)











Lemma group_one_folder (f : string) (l : list placemark) : forall pms,
  Forall (fun c => Folder c = f) l ->
  group f pms l
  = [Folder_element f (pms ++ concat (map emitted l))].
Proof.
  induction l as [|c l IH]; intros pms H; cbn.
  - now rewrite app_nil_r.
  - inversion H as [|? ? Hc Hl]; subst.
    rewrite String.eqb_refl. cbn. rewrite (IH _ Hl).
    now rewrite <- app_assoc.
Qed.

Lemma concat_emitted (l : list placemark) :
  concat (map emitted l) = map Placemark_element (List.filter exported l).
Proof.
  induction l as [|c l IH]; cbn; [reflexivity|].
  unfold emitted at 1. destruct (exported c); cbn; now rewrite IH.
Qed.

(** ** Records at the same place *)

Lemma is_finite_not_infinity (x : float) :
  is_finite x = true -> is_infinity x = false.
Proof.
  unfold is_finite. intros H. apply negb_true_iff, orb_false_iff in H.
  tauto.
Qed.

Lemma distance_same_place (c k : placemark) :
  libm_sin 0 = 0 -> libm_atan2 0 1 = 0 ->
  coords c = coords k ->
  is_finite (Latitude c * math_pi / 180) = true ->
  is_finite (Longitude c * math_pi / 180) = true ->
  is_finite (libm_cos (Latitude c * math_pi / 180)
             * libm_cos (Latitude c * math_pi / 180)) = true ->
  distance c k = Ret 0.
Proof.
  intros Hsin Hatan E Hlat Hlon Hcos.
  unfold coords in E. injection E as E1 E2.
  unfold distance, _distance_between_placemarks. rewrite <- E1, <- E2.
  rewrite (FloatZero.sub_diag _ Hlat), (FloatZero.sub_diag _ Hlon).
  unfold math_sin, math_cos.
  rewrite (is_finite_not_infinity _ Hlat).
  change (0 / 2) with 0. change (is_infinity 0) with false.
  cbn [bind]. rewrite Hsin.
  rewrite (FloatZero.square_mul_zero _ Hcos).
  change (0 * 0 + 0 * 0) with 0.
  unfold math_sqrt, math_atan2.
  change (0 <? 0) with false. change (1 - 0 <? 0) with false.
  cbn [bind]. change (sqrt 0) with 0. change (sqrt (1 - 0)) with 1.
  rewrite Hatan. reflexivity.
Qed.

Lemma lookup_In {A} (l : list A) (i : nat) (x : A) :
  l !! i = Some x -> In x l.
Proof.
  revert i. induction l as [|y l IH]; intros [|i]; cbn; try discriminate.
  - intros [= <-]. now left.
  - intros H. right. exact (IH i H).
Qed.

(** X13. With a positive threshold a place is exported once: when the
    library gives [sin 0 = 0] and [atan2 0 1 = 0] and the angles are
    finite, the distance between two records with the same coordinates is
    computed as 0, so a record that comes after an exported record at the
    same coordinates is flagged [Export = False]. *)
Theorem same_place_is_exported_once (T : float) (st st' : list placemark)
    (n i j : nat) (k c : placemark) :
  libm_sin 0 = 0 -> libm_atan2 0 1 = 0 ->
  _filter_placemarks T st = (st', Ret n) ->
  (i < j)%nat -> st' !! i = Some k -> st' !! j = Some c ->
  Latitude c = Latitude k -> Longitude c = Longitude k ->
  is_finite (Latitude c * math_pi / 180) = true ->
  is_finite (Longitude c * math_pi / 180) = true ->
  is_finite (libm_cos (Latitude c * math_pi / 180)
             * libm_cos (Latitude c * math_pi / 180)) = true ->
  _distance_between_placemarks
    (Latitude c) (Longitude c) (Latitude k) (Longitude k) = Ret 0 /\
  ((0 <? T) = true -> Export k = Some true -> Export c = Some false).
Proof.
  intros Hsin Hatan Hrun Hij Hk Hc Elat Elon Hlat Hlon Hcos.
  assert (Hd : distance c k = Ret 0).
  { apply distance_same_place; auto. unfold coords. congruence. }
  split; [exact Hd|]. intros HT Hek.
  destruct (filter_loop_spec _ _ _ _ _ _ Hrun) as (Hdef & _ & _ & Hpair).
  rewrite List.Forall_forall in Hdef.
  pose proof (Hdef c (lookup_In _ _ _ Hc)) as Hflag.
  destruct (Export c) as [[|]|] eqn:Hec; [|reflexivity|congruence].
  destruct (Hpair i j k c Hij Hk Hc) as (d & Hd' & Hfar).
  - now apply exported_iff.
  - now apply exported_iff.
  - rewrite Hd in Hd'. injection Hd' as <-. congruence.
Qed.

End KmlProperties.

(** ** Properties of the scan *)

Section ScanProperties.

Context {fs : FileSystem}.

#[local] Set Default Proof Using "Type".

Lemma and_then_raises {A B} (r : outcome A) (k : A -> outcome B) e :
  and_then r k = Raises e ->
  r = Raises e \/ exists a, r = Returns a /\ k a = Raises e.
Proof.
  destruct r as [a|e']; cbn; [|intros [= <-]; now left].
  intros H. right. now exists a.
Qed.

Lemma getitem_tags_raises tags key e :
  getitem_tags tags key = Raises e -> e = Builtin KeyError.
Proof. unfold getitem_tags. destruct (tags !! key); congruence. Qed.

Lemma getitem_values_raises v i e :
  getitem_values v i = Raises e -> e = Builtin IndexError.
Proof.
  unfold getitem_values. destruct v as [s|l].
  - destruct (String.get i s); congruence.
  - destruct (nth_error l i); congruence.
Qed.

Lemma attr_num_raises x e : attr_num x = Raises e -> e = AttributeError.
Proof. destruct x; cbn; congruence. Qed.

Lemma attr_den_raises x e : attr_den x = Raises e -> e = AttributeError.
Proof. destruct x; cbn; congruence. Qed.

Lemma float_of_int_raises n e :
  float_of_int n = Raises e -> e = OverflowError.
Proof. unfold float_of_int. destruct (is_infinity _); congruence. Qed.

Lemma truediv_raises a b e : truediv a b = Raises e -> e = ZeroDivisionError.
Proof. unfold truediv. destruct (b =? 0); congruence. Qed.

Ltac raised H :=
  repeat (cbv beta in H;
          match type of H with
          | and_then ?r ?k = Raises ?e =>
              apply (and_then_raises r k e) in H as [H|(? & _ & H)]
          end);
  cbv beta in H;
  first [ discriminate H
        | apply getitem_tags_raises in H
        | apply getitem_values_raises in H
        | apply attr_num_raises in H
        | apply attr_den_raises in H
        | apply float_of_int_raises in H
        | apply truediv_raises in H
        | idtac ].

Lemma ratio_to_float_raises v i e :
  ratio_to_float v i = Raises e -> of_extraction e.
Proof.
  unfold ratio_to_float, of_extraction. intros H.
  raised H; subst; tauto.
Qed.

Lemma convert_to_degress_raises v e :
  _convert_to_degress v = Raises e -> of_extraction e.
Proof.
  unfold _convert_to_degress. intros H.
  raised H; now apply ratio_to_float_raises in H.
Qed.

Lemma gps_of_tags_raises tags e :
  gps_of_tags tags = Raises e -> of_extraction e.
Proof.
  unfold gps_of_tags. intros H.
  raised H; try (now apply convert_to_degress_raises in H);
    subst; unfold of_extraction; tauto.
Qed.

Lemma extraction_uncaught e :
  of_extraction e -> caught_extracting e = false ->
  e = ZeroDivisionError \/ e = OverflowError.
Proof.
  unfold of_extraction. intros [-> | [-> | [-> | [-> | ->]]]]; cbn; auto; discriminate.
Qed.

(** The loop over the files, by what each file contributes. *)
Lemma scan_files_step folder f files n st :
  escapes f = None ->
  scan_files folder (f :: files) n st
  = match placemark_of folder f with
    | Some c => scan_files folder files (S n) (st ++ [c])
    | None => scan_files folder files n st
    end.
Proof.
  unfold escapes, placemark_of. cbn.
  destruct (process_file (path_str f)) as [tags|e].
  - destruct (gps_of_tags tags) as [[my_lat my_lon]|e]; [reflexivity|].
    now destruct (caught_extracting e).
  - now destruct (caught_reading e).
Qed.

Lemma scan_files_stop folder f files n st e :
  escapes f = Some e -> scan_files folder (f :: files) n st = (st, Raises e).
Proof.
  unfold escapes. cbn.
  destruct (process_file (path_str f)) as [tags|e'].
  - destruct (gps_of_tags tags) as [[my_lat my_lon]|e']; [discriminate|].
    destruct (caught_extracting e'); congruence.
  - destruct (caught_reading e'); congruence.
Qed.

Lemma scan_files_returns folder files : forall n st,
  Forall (fun f => escapes f = None) files ->
  scan_files folder files n st
  = (st ++ omap (placemark_of folder) files,
     Returns (n + length (omap (placemark_of folder) files))%nat).
Proof.
  induction files as [|f files IH]; intros n st H.
  - cbn. now rewrite app_nil_r, Nat.add_0_r.
  - inversion H as [|? ? Hf Hfiles]; subst.
    rewrite (scan_files_step _ _ _ _ _ Hf). cbn [omap list_omap].
    destruct (placemark_of folder f) as [c|]; rewrite (IH _ _ Hfiles).
    + rewrite <- app_assoc. cbn. now rewrite Nat.add_succ_r.
    + reflexivity.
Qed.

Lemma scan_files_escapes folder pre f post e : forall n st,
  Forall (fun f => escapes f = None) pre ->
  escapes f = Some e ->
  scan_files folder (pre ++ f :: post) n st
  = (st ++ omap (placemark_of folder) pre, Raises e).
Proof.
  induction pre as [|g pre IH]; intros n st H Hf.
  - cbn [app omap list_omap]. rewrite app_nil_r.
    now apply scan_files_stop.
  - inversion H as [|? ? Hg Hpre]; subst. cbn [app].
    rewrite (scan_files_step _ _ _ _ _ Hg). cbn [omap list_omap].
    destruct (placemark_of folder g) as [c|]; rewrite (IH _ _ Hpre Hf).
    + now rewrite <- app_assoc.
    + reflexivity.
Qed.

Lemma first_escape (files : list Path) :
  Forall (fun f => escapes f = None) files \/
  exists pre f post e,
    files = pre ++ f :: post /\
    Forall (fun f => escapes f = None) pre /\ escapes f = Some e.
Proof.
  induction files as [|g files IH]; [left; constructor|].
  destruct (escapes g) as [e|] eqn:Hg.
  - right. exists [], g, files, e. repeat split; auto.
  - destruct IH as [IH|(pre & f & post & e & -> & Hpre & Hf)].
    + left. now constructor.
    + right. exists (g :: pre), f, post, e. repeat split; auto.
Qed.

Lemma placemark_of_fields folder f c :
  placemark_of folder f = Some c ->
  Folder c = folder /\ Name c = path_str f /\ Export c = None.
Proof.
  unfold placemark_of.
  destruct (process_file (path_str f)) as [tags|e]; [|discriminate].
  destruct (gps_of_tags tags) as [[my_lat my_lon]|e]; [|discriminate].
  intros [= <-]. cbn. auto.
Qed.

Lemma omap_placemark_of folder files c :
  In c (omap (placemark_of folder) files) ->
  exists f, In f files /\ placemark_of folder f = Some c.
Proof.
  induction files as [|g files IH]; cbn; [tauto|].
  destruct (placemark_of folder g) as [c'|] eqn:Hg; cbn.
  - intros [<-|H]; [exists g; auto|].
    destruct (IH H) as (f & Hf & Hc). exists f. auto.
  - intros H. destruct (IH H) as (f & Hf & Hc). exists f. auto.
Qed.

Lemma scan_folder_cases folder st :
  (exists e, extend_file_list folder file_types [] = Raises e /\
     scan_folder folder st = (st, Raises e)) \/
  (exists file_list,
     extend_file_list folder file_types [] = Returns file_list /\
     ((Forall (fun f => escapes f = None) (List.filter visible file_list) /\
       scan_folder folder st
       = (st ++ omap (placemark_of folder) (List.filter visible file_list),
          Returns (length (omap (placemark_of folder)
                             (List.filter visible file_list))))) \/
      (exists pre f post e,
         List.filter visible file_list = pre ++ f :: post /\
         Forall (fun f => escapes f = None) pre /\ escapes f = Some e /\
         scan_folder folder st
         = (st ++ omap (placemark_of folder) pre, Raises e)))).
Proof.
  unfold scan_folder.
  destruct (extend_file_list folder file_types []) as [file_list|e].
  - right. exists file_list. split; [reflexivity|].
    destruct (first_escape (List.filter visible file_list))
      as [H|(pre & f & post & e & E & Hpre & Hf)].
    + left. split; [exact H|]. now rewrite scan_files_returns.
    + right. exists pre, f, post, e. rewrite E.
      repeat split; auto. now apply scan_files_escapes.
  - left. now exists e.
Qed.

(** X8. [scan_folder] only appends: whatever the file system holds and
    whether the scan returns or an exception escapes, the records stored
    before stay in place; each new record carries the scanned folder, the
    path of a listed file whose name does not start with ["._"], and no
    ["Export"] key; and the number returned is the number of records
    appended. *)
Theorem scan_folder_appends (folder : string) (st : list placemark) :
  exists new : list placemark,
    fst (scan_folder folder st) = st ++ new /\
    Forall (fun c =>
              Folder c = folder /\ Export c = None /\
              exists file_list f,
                extend_file_list folder file_types [] = Returns file_list /\
                In f file_list /\
                String.prefix "._" (path_name f) = false /\
                Name c = path_str f) new /\
    (forall n, snd (scan_folder folder st) = Returns n -> n = length new).
Proof.
  destruct (scan_folder_cases folder st)
    as [(e & _ & ->)
       |(file_list & Hl & [(_ & ->)|(pre & f & post & e & E & _ & _ & ->)])];
    cbn [fst snd].
  - exists []. rewrite app_nil_r. repeat split; [constructor | discriminate].
  - exists (omap (placemark_of folder) (List.filter visible file_list)).
    split; [reflexivity|]. split; [|now intros n [= <-]].
    apply List.Forall_forall. intros c Hc.
    apply omap_placemark_of in Hc as (f & Hf & Hc).
    apply placemark_of_fields in Hc as (H1 & H2 & H3).
    apply filter_In in Hf as [Hf Hv].
    repeat split; auto. exists file_list, f. repeat split; auto.
    unfold visible in Hv. now destruct (String.prefix "._" (path_name f)).
  - exists (omap (placemark_of folder) pre).
    split; [reflexivity|]. split; [|discriminate].
    apply List.Forall_forall. intros c Hc.
    apply omap_placemark_of in Hc as (g & Hg & Hc).
    apply placemark_of_fields in Hc as (H1 & H2 & H3).
    assert (Hin : In g (List.filter visible file_list)).
    { rewrite E. apply in_or_app. now left. }
    apply filter_In in Hin as [Hin Hv].
    repeat split; auto. exists file_list, g. repeat split; auto.
    unfold visible in Hv. now destruct (String.prefix "._" (path_name g)).
Qed.

(** X9. The scan as a whole: when the listing returns and no visible file
    makes an exception escape, the scan returns and appends, in the order
    of the listing ([*.jpg], then [*.jpeg], then [*.dng]), one record for
    each visible file whose tags give both coordinates; files that cannot
    be read ([OSError]) and files without usable GPS tags are passed over
    and do not stop it. *)
Theorem scan_folder_returns (folder : string) (st : list placemark)
    (jpg jpeg dng : list Path) :
  glob folder "**/*.jpg" = Returns jpg ->
  glob folder "**/*.jpeg" = Returns jpeg ->
  glob folder "**/*.dng" = Returns dng ->
  Forall (fun f =>
            forall e, process_file (path_str f) = Raises e ->
                      caught_reading e = true)
    (List.filter visible (jpg ++ jpeg ++ dng)) ->
  Forall (fun f =>
            forall tags e, process_file (path_str f) = Returns tags ->
                           gps_of_tags tags = Raises e ->
                           e <> ZeroDivisionError /\ e <> OverflowError)
    (List.filter visible (jpg ++ jpeg ++ dng)) ->
  scan_folder folder st
  = (st ++ omap (placemark_of folder)
             (List.filter visible (jpg ++ jpeg ++ dng)),
     Returns (length (omap (placemark_of folder)
                        (List.filter visible (jpg ++ jpeg ++ dng))))).
Proof.
  intros Hjpg Hjpeg Hdng Hread Hgps.
  unfold scan_folder, file_types. cbn [extend_file_list app].
  change ("**/" ++ "*.jpg")%string with "**/*.jpg".
  change ("**/" ++ "*.jpeg")%string with "**/*.jpeg".
  change ("**/" ++ "*.dng")%string with "**/*.dng".
  rewrite Hjpg, Hjpeg, Hdng. cbn [and_then].
  rewrite <- app_assoc. apply scan_files_returns.
  rewrite List.Forall_forall in *. intros f Hf.
  specialize (Hread f Hf). specialize (Hgps f Hf). unfold escapes.
  destruct (process_file (path_str f)) as [tags|e].
  - destruct (gps_of_tags tags) as [[my_lat my_lon]|e] eqn:Hg;
      [reflexivity|].
    destruct (caught_extracting e) eqn:Hc; [reflexivity|].
    destruct (extraction_uncaught e (gps_of_tags_raises _ _ Hg) Hc);
      destruct (Hgps tags e eq_refl Hg); contradiction.
  - now rewrite (Hread e eq_refl).
Qed.

(** X10. What can leave [scan_folder]: an exception of the listing, an
    exception of the reading of a visible file that is no [OSError], or a
    [ZeroDivisionError] or [OverflowError] of [_convert_to_degress] on the
    tags of a visible file; a missing tag, a missing item or an item that
    is no [Ratio] never stops the scan. *)
Theorem scan_folder_raises_only (folder : string) (st : list placemark)
    (e : scan_exception) :
  snd (scan_folder folder st) = Raises e ->
  extend_file_list folder file_types [] = Raises e \/
  exists file_list f,
    extend_file_list folder file_types [] = Returns file_list /\
    In f file_list /\ visible f = true /\
    ((process_file (path_str f) = Raises e /\ caught_reading e = false) \/
     (exists tags,
        process_file (path_str f) = Returns tags /\
        gps_of_tags tags = Raises e /\
        (e = ZeroDivisionError \/ e = OverflowError))).
Proof.
  destruct (scan_folder_cases folder st)
    as [(e' & He & ->)
       |(file_list & Hl & [(_ & ->)|(pre & f & post & e' & E & _ & Hf & ->)])];
    cbn [snd]; intros [= <-]; [now left|].
  right. exists file_list, f.
  assert (Hin : In f (List.filter visible file_list)).
  { rewrite E. apply in_or_app. right. now left. }
  apply filter_In in Hin as [Hin Hv]. repeat split; auto.
  unfold escapes in Hf.
  destruct (process_file (path_str f)) as [tags|e0].
  - right. exists tags. split; [reflexivity|].
    destruct (gps_of_tags tags) as [[my_lat my_lon]|e0] eqn:Hg;
      [discriminate|].
    destruct (caught_extracting e0) eqn:Hc; [discriminate|].
    injection Hf as <-. split; [reflexivity|].
    exact (extraction_uncaught _ (gps_of_tags_raises _ _ Hg) Hc).
  - left. destruct (caught_reading e0) eqn:Hc; [discriminate|].
    injection Hf as <-. auto.
Qed.

Lemma convert_zero_denominator num x others :
  float_of_int num = Returns x ->
  _convert_to_degress (Items (Ratio num 0 :: others))
  = Raises ZeroDivisionError.
Proof.
  intros Hnum. unfold _convert_to_degress, ratio_to_float.
  cbn [getitem_values nth_error and_then attr_num attr_den].
  rewrite Hnum. reflexivity.
Qed.

(** X11. A denominator 0 stops the scan: when the scan reaches a visible
    file whose latitude tag starts with a [Ratio] of denominator 0 (as
    [exifread] gives for a rational 0/0), the [ZeroDivisionError] of
    [_convert_to_degress] is not caught and leaves [scan_folder]; the
    records of the files before it stay appended and the files after it
    are not scanned. *)
Theorem zero_denominator_stops_the_scan (folder : string)
    (st : list placemark) (file_list pre post : list Path) (f : Path)
    (tags : gmap string tag_values) (num : Z) (x : float)
    (others : list item) :
  extend_file_list folder file_types [] = Returns file_list ->
  List.filter visible file_list = pre ++ f :: post ->
  Forall (fun g => escapes g = None) pre ->
  process_file (path_str f) = Returns tags ->
  tags !! "GPS GPSLatitude" = Some (Items (Ratio num 0 :: others)) ->
  float_of_int num = Returns x ->
  scan_folder folder st
  = (st ++ omap (placemark_of folder) pre, Raises ZeroDivisionError).
Proof.
  intros Hl E Hpre Hf Htag Hnum. unfold scan_folder. rewrite Hl, E.
  apply scan_files_escapes; [exact Hpre|].
  unfold escapes. rewrite Hf.
  unfold gps_of_tags, getitem_tags. rewrite Htag. cbn [and_then].
  now rewrite (convert_zero_denominator _ _ _ Hnum).
Qed.

End ScanProperties.

Lemma extend_file_list_In (fs : FileSystem) (folder : string)
    (types : list string) : forall acc l f,
  extend_file_list (fs := fs) folder types acc = Returns l -> In f l ->
  In f acc \/
  exists pattern found,
    glob (FileSystem := fs) folder pattern = Returns found /\ In f found.
Proof.
  induction types as [|t types IH]; intros acc l f; cbn.
  - intros [= <-]. now left.
  - destruct (glob folder ("**/" ++ t)) as [found|e] eqn:Hg; cbn;
      [|discriminate].
    intros Hl Hf. destruct (IH _ _ _ Hl Hf) as [H|H]; [|now right].
    apply in_app_or in H as [H|H]; [now left|].
    right. now exists ("**/" ++ t)%string, found.
Qed.

Lemma scan_files_ext (fs1 fs2 : FileSystem) (folder : string)
    (files : list Path) : forall n st,
  (forall f, In f files ->
     process_file (FileSystem := fs1) (path_str f)
     = process_file (FileSystem := fs2) (path_str f)) ->
  scan_files (fs := fs1) folder files n st
  = scan_files (fs := fs2) folder files n st.
Proof.
  induction files as [|f files IH]; intros n st H; cbn; [reflexivity|].
  rewrite (H f) by now left.
  assert (H' : forall g, In g files ->
            process_file (FileSystem := fs1) (path_str g)
            = process_file (FileSystem := fs2) (path_str g))
    by (intros g Hg; apply H; now right).
  destruct (process_file (path_str f)) as [tags|e].
  - destruct (gps_of_tags tags) as [[my_lat my_lon]|e]; [now apply IH|].
    destruct (caught_extracting e); [now apply IH | reflexivity].
  - destruct (caught_reading e); [now apply IH | reflexivity].
Qed.

(** X12. The scan does not read the files whose name starts with ["._"]:
    two file systems with the same listings of the folder that agree on
    every listed file of another name give the same scan. *)
Theorem scan_folder_ignores_hidden_files (fs1 fs2 : FileSystem)
    (folder : string) (st : list placemark) :
  (forall pattern,
     glob (FileSystem := fs1) folder pattern
     = glob (FileSystem := fs2) folder pattern) ->
  (forall pattern found f,
     glob (FileSystem := fs1) folder pattern = Returns found ->
     In f found ->
     String.prefix "._" (path_name f) = false ->
     process_file (FileSystem := fs1) (path_str f)
     = process_file (FileSystem := fs2) (path_str f)) ->
  scan_folder (fs := fs1) folder st = scan_folder (fs := fs2) folder st.
Proof.
  intros Hglob Hread. unfold scan_folder.
  assert (Hl : forall types acc,
            extend_file_list (fs := fs1) folder types acc
            = extend_file_list (fs := fs2) folder types acc).
  { induction types as [|t types IH]; intros acc; cbn; [reflexivity|].
    rewrite Hglob. destruct (glob folder ("**/" ++ t)); cbn; auto. }
  rewrite <- Hl.
  destruct (extend_file_list (fs := fs1) folder file_types [])
    as [l|e] eqn:El; [|reflexivity].
  apply scan_files_ext. intros f Hf. apply filter_In in Hf as [Hf Hv].
  destruct (extend_file_list_In fs1 folder file_types [] l f El Hf)
    as [[]|(pattern & found & Hg & Hin)].
  apply (Hread pattern found f Hg Hin).
  unfold visible in Hv. now destruct (String.prefix "._" (path_name f)).
Qed.

(** ** A scan followed by a render *)

Section ScanAndRender.

Context {lib : Library} {fs : FileSystem}.

#[local] Set Default Proof Using "Type".

Lemma scan_folder_store (folder : string) (st : list placemark) :
  exists new : list placemark,
    fst (scan_folder folder st) = st ++ new /\
    Forall (fun c => Folder c = folder) new /\
    (forall n, snd (scan_folder folder st) = Returns n -> n = length new).
Proof.
  assert (H : forall files, Forall (fun c => Folder c = folder)
                              (omap (placemark_of folder) files)).
  { intros files. apply List.Forall_forall. intros c Hc.
    apply omap_placemark_of in Hc as (f & _ & Hc).
    now apply placemark_of_fields in Hc. }
  destruct (scan_folder_cases folder st)
    as [(e & _ & ->)
       |(file_list & Hl & [(_ & ->)|(pre & f & post & e & E & _ & _ & ->)])];
    cbn [fst snd].
  - exists []. rewrite app_nil_r. repeat split; [constructor | discriminate].
  - eexists. split; [reflexivity|]. split; [apply H|]. now intros n [= <-].
  - eexists. split; [reflexivity|]. split; [apply H|]. discriminate.
Qed.

(** X14. A scan of one folder into an empty store, then a render: when
    the scan found no coordinates the render raises [IndexError]; when the
    render returns, the document has exactly one [Folder] element, named
    after the scanned folder, with the placemarks of the exported records,
    at least one and at most as many as the scan counted. *)
Theorem scanned_folder_renders_one_Folder (folder name desc : string)
    (T : float) (st : list placemark) (n : nat) :
  scan_folder folder [] = (st, Returns n) ->
  (n = 0%nat -> _get_kml_tree name desc T st = ([], Raise IndexError)) /\
  (forall root k,
     snd (_get_kml_tree name desc T st) = Ret (root, k) ->
     folders_in root
     = [Folder_element folder
          (map Placemark_element
             (List.filter exported (fst (_get_kml_tree name desc T st))))] /\
     (1 <= k)%nat /\ (k <= n)%nat).
Proof.
  intros Hscan.
  destruct (scan_folder_store folder []) as (new & Hst & Hfolder & Hn).
  rewrite Hscan in Hst, Hn. cbn [fst snd app] in Hst, Hn.
  subst st. specialize (Hn n eq_refl). split.
  - intros ->. destruct new; [|discriminate]. reflexivity.
  - intros root k. rewrite get_kml_tree_eq. cbn [fst snd].
    assert (Hperm : Permutation (map data (fst (_reorder_placemarks T new)))
                      (map data new)).
    { rewrite reorder_data. apply Permutation_map, sorted_Permutation. }
    assert (Hlen : length (fst (_reorder_placemarks T new)) = n).
    { rewrite Hn, <- (length_map data), <- (length_map data new).
      now apply Permutation_length. }
    assert (Hall : Forall (fun c => Folder c = folder)
                     (fst (_reorder_placemarks T new))).
    { apply List.Forall_forall. intros c Hc.
      destruct (In_data_Permutation _ _ _ Hperm Hc) as (c' & Hc' & Hd).
      rewrite List.Forall_forall in Hfolder.
      rewrite <- (Hfolder c' Hc'). unfold data in Hd. congruence. }
    assert (Hhead : forall first rest,
              fst (_reorder_placemarks T new) = first :: rest ->
              exported first = true).
    { intros first rest. rewrite reorder_fst.
      destruct (sorted key_lt sort_key new) as [|c l]; [discriminate|].
      destruct (filter_head T c l) as [rest' ->].
      now intros [<- _]%cons_eq_inv. }
    destruct (snd (_reorder_placemarks T new)); [|discriminate].
    remember (fst (_reorder_placemarks T new)) as st' eqn:Est. clear Est.
    destruct st' as [|first rest] eqn:E; [discriminate|]. rewrite <- E in *.
    intros [<- <-]%Ret_pair_inv.
    rewrite folders_in_kml_root by apply group_tags.
    assert (Hf : Folder first = folder).
    { rewrite E in Hall. now inversion Hall. }
    rewrite Hf, (group_one_folder folder st' [] Hall), concat_emitted.
    split; [reflexivity|]. split.
    + rewrite E. cbn. rewrite (Hhead first rest E). cbn. lia.
    + rewrite <- Hlen. apply filter_exported_length.
Qed.

End ScanAndRender.

(** ** The methods on the heap *)

Section HeapProperties.

Context {lib : Library}.

#[local] Set Default Proof Using "Type".

Lemma insert_sorted_map {A B K : Type} (lt : K -> K -> bool) (key : B -> K)
    (f : A -> B) (x : A) (l : list A) :
  map f (insert_sorted lt (fun i => key (f i)) x l)
  = insert_sorted lt key (f x) (map f l).
Proof.
  induction l as [|y l IH]; cbn; [reflexivity|].
  destruct (lt (key (f y)) (key (f x))); cbn; [now rewrite IH | reflexivity].
Qed.

Lemma sorted_map {A B K : Type} (lt : K -> K -> bool) (key : B -> K)
    (f : A -> B) (l : list A) :
  map f (sorted lt (fun i => key (f i)) l) = sorted lt key (map f l).
Proof.
  induction l as [|x l IH]; cbn; [reflexivity|].
  now rewrite insert_sorted_map, IH.
Qed.

Lemma insert_sorted_perm {A K : Type} (lt : K -> K -> bool) (key : A -> K)
    (x : A) (l : list A) :
  Permutation (insert_sorted lt key x l) (x :: l).
Proof.
  induction l as [|y l IH]; cbn; [reflexivity|].
  destruct (lt (key y) (key x)); [|reflexivity].
  rewrite IH. apply perm_swap.
Qed.

Lemma sorted_perm {A K : Type} (lt : K -> K -> bool) (key : A -> K)
    (l : list A) :
  Permutation (sorted lt key l) l.
Proof.
  induction l as [|x l IH]; cbn; [reflexivity|].
  rewrite insert_sorted_perm. now constructor.
Qed.

Lemma map_store_notin (d : nat -> placemark) (i : nat) (c : placemark)
    (l : list nat) :
  ~ In i l -> map (Heap.store d i c) l = map d l.
Proof.
  induction l as [|j l IH]; cbn; [reflexivity|].
  intros H. unfold Heap.store at 1.
  destruct (Nat.eqb_spec j i) as [->|_]; [exfalso; apply H; now left|].
  rewrite IH; [reflexivity|]. intros Hi. apply H. now right.
Qed.

Lemma store_same (d : nat -> placemark) (i : nat) (c : placemark) :
  Heap.store d i c i = c.
Proof. unfold Heap.store. now rewrite Nat.eqb_refl. Qed.

Lemma store_other (d : nat -> placemark) (i j : nat) (c : placemark) :
  j <> i -> Heap.store d i c j = d j.
Proof.
  unfold Heap.store. intros H. now destruct (Nat.eqb_spec j i).
Qed.

(** The loop on references computes what the loop on values computes. *)
Lemma filter_refs_spec (T : float) (l : list nat) : forall kept n d,
  NoDup l -> (forall i, In i l -> ~ In i kept) ->
  map (fst (Heap.filter_refs T kept n l d)) l
  = fst (filter_loop T (map d kept) n (map d l)) /\
  snd (Heap.filter_refs T kept n l d)
  = snd (filter_loop T (map d kept) n (map d l)) /\
  (forall j, ~ In j l -> fst (Heap.filter_refs T kept n l d) j = d j).
Proof.
  induction l as [|i l IH]; intros kept n d Hnd Hkept; cbn [Heap.filter_refs].
  - cbn. auto.
  - inversion Hnd as [|? ? Hi Hl]; subst.
    rewrite list_elem_of_In in Hi.
    assert (Hik : ~ In i kept) by (apply Hkept; now left).
    set (d1 := Heap.store d i (set_Export (d i) true)).
    assert (E1 : d1 i = set_Export (d i) true) by apply store_same.
    assert (Ek : map d1 kept = map d kept) by now apply map_store_notin.
    assert (El : map d1 l = map d l) by now apply map_store_notin.
    cbn [map filter_loop]. rewrite Ek, E1.
    destruct (scan_kept T (set_Export (d i) true) (map d kept))
      as [[|]|e] eqn:Hscan.
    + destruct (IH (kept ++ [i]) (S n) d1 Hl) as (H1 & H2 & H3).
      { intros j Hj Hin. apply in_app_or in Hin as [Hin|[<-|[]]].
        - apply (Hkept j); [now right | exact Hin].
        - contradiction. }
      rewrite map_app in H1, H2. cbn [map] in H1, H2.
      rewrite Ek, E1, El in H1, H2.
      destruct (filter_loop T (map d kept ++ [set_Export (d i) true]) (S n)
                  (map d l)) as [rest r].
      cbn [fst snd] in *. rewrite (H3 i Hi), E1, H1.
      split; [reflexivity|]. split; [exact H2|].
      intros j Hj. rewrite H3 by (intros Hin; apply Hj; now right).
      apply store_other. intros ->. apply Hj. now left.
    + set (d2 := Heap.store d1 i (set_Export (set_Export (d i) true) false)).
      assert (E2 : d2 i = set_Export (set_Export (d i) true) false)
        by apply store_same.
      assert (Ek2 : map d2 kept = map d kept).
      { unfold d2. rewrite map_store_notin by exact Hik. exact Ek. }
      assert (El2 : map d2 l = map d l).
      { unfold d2. rewrite map_store_notin by exact Hi. exact El. }
      destruct (IH kept n d2 Hl) as (H1 & H2 & H3).
      { intros j Hj. apply Hkept. now right. }
      rewrite Ek2, El2 in H1, H2.
      destruct (filter_loop T (map d kept) n (map d l)) as [rest r].
      cbn [fst snd] in *. fold d2. rewrite (H3 i Hi), E2, H1.
      split; [reflexivity|]. split; [exact H2|].
      intros j Hj. rewrite H3 by (intros Hin; apply Hj; now right).
      assert (Hji : j <> i) by (intros ->; apply Hj; now left).
      unfold d2. rewrite store_other by exact Hji. now apply store_other.
    + cbn [fst snd]. rewrite E1, El.
      split; [reflexivity|]. split; [reflexivity|].
      intros j Hj. apply store_other. intros ->. apply Hj. now left.
Qed.

Lemma placemark_list_of_insert (d d' : nat -> placemark) (n n' : nat)
    (k : list nat) (own : gmap nat (list nat)) (self other : nat)
    (l : list nat) :
  Heap.placemark_list_of (Heap.mk_heap d n k (<[self := l]> own)) other
  = if Nat.eqb other self then l
    else Heap.placemark_list_of (Heap.mk_heap d' n' k own) other.
Proof.
  unfold Heap.placemark_list_of. cbn.
  destruct (Nat.eqb_spec other self) as [->|H].
  - now rewrite lookup_insert_eq.
  - now rewrite lookup_insert_ne by congruence.
Qed.

(** The list of [self] and the lists of the others after
    [_reorder_placemarks], and the dicts through the list of [self]. *)
Lemma heap_reorder_lists (T : float) (h : Heap.heap) (self other : nat) :
  Heap.placemark_list_of (fst (Heap._reorder_placemarks T h self)) other
  = if Nat.eqb other self
    then sorted key_lt (fun i => sort_key (Heap.dict h i))
           (Heap.placemark_list_of h self)
    else Heap.placemark_list_of h other.
Proof.
  unfold Heap._reorder_placemarks, Heap._filter_placemarks.
  destruct (Heap.filter_refs _ _ _ _ _) as [d r].
  cbn [fst Heap.next_dict Heap.Kml_placemark_list Heap.own_placemark_list].
  rewrite (placemark_list_of_insert _ (Heap.dict h) _ (Heap.next_dict h)).
  now destruct h.
Qed.

Lemma heap_reorder_view (T : float) (h : Heap.heap) (self : nat) :
  NoDup (Heap.placemark_list_of h self) ->
  Heap.view (fst (Heap._reorder_placemarks T h self)) self
  = fst (_reorder_placemarks T (Heap.view h self)) /\
  snd (Heap._reorder_placemarks T h self)
  = snd (_reorder_placemarks T (Heap.view h self)).
Proof.
  intros Hnd. unfold Heap.view at 1.
  rewrite heap_reorder_lists, Nat.eqb_refl.
  unfold Heap._reorder_placemarks, Heap._filter_placemarks.
  rewrite (placemark_list_of_insert _ (Heap.dict h) _ (Heap.next_dict h)),
    Nat.eqb_refl.
  cbn [Heap.dict].
  set (l := sorted key_lt (fun i => sort_key (Heap.dict h i))
              (Heap.placemark_list_of h self)).
  assert (Hl : NoDup l).
  { apply (NoDup_Permutation_proper _ _ (sorted_perm _ _ _)), Hnd. }
  destruct (filter_refs_spec T l [] 0 (Heap.dict h) Hl) as (H1 & H2 & _);
    [intros i _ []|].
  destruct (Heap.filter_refs T [] 0 l (Heap.dict h)) as [d r].
  cbn [fst snd Heap.dict] in *.
  unfold _reorder_placemarks, _filter_placemarks, Heap.view.
  rewrite <- (sorted_map key_lt sort_key (Heap.dict h)). fold l.
  cbn [map] in H1, H2.
  destruct (filter_loop T [] 0 (map (Heap.dict h) l)) as [st r'].
  cbn [fst snd] in *. now subst.
Qed.

Lemma heap_reorder_dict (T : float) (h : Heap.heap) (self : nat) (j : nat) :
  NoDup (Heap.placemark_list_of h self) ->
  ~ In j (Heap.placemark_list_of h self) ->
  Heap.dict (fst (Heap._reorder_placemarks T h self)) j = Heap.dict h j.
Proof.
  intros Hnd Hj.
  unfold Heap._reorder_placemarks, Heap._filter_placemarks.
  rewrite (placemark_list_of_insert _ (Heap.dict h) _ (Heap.next_dict h)),
    Nat.eqb_refl.
  cbn [Heap.dict].
  set (l := sorted key_lt (fun i => sort_key (Heap.dict h i))
              (Heap.placemark_list_of h self)).
  assert (Hp : Permutation l (Heap.placemark_list_of h self))
    by apply sorted_perm.
  assert (Hl : NoDup l) by apply (NoDup_Permutation_proper _ _ Hp), Hnd.
  destruct (filter_refs_spec T l [] 0 (Heap.dict h) Hl) as (_ & _ & H3);
    [intros i _ []|].
  destruct (Heap.filter_refs T [] 0 l (Heap.dict h)) as [d r].
  cbn [fst Heap.dict] in *. apply H3.
  intros Hin. apply Hj. eapply Permutation_in; [exact Hp | exact Hin].
Qed.

(** The heaps that the methods build are well formed. *)
Lemma class_defined_well_formed : Heap.well_formed Heap.class_defined.
Proof. intros self. split; constructor. Qed.

Lemma add_placemark_well_formed (h : Heap.heap) (self : nat)
    lat lon name folder :
  Heap.well_formed h ->
  Heap.well_formed (Heap._add_placemark h self lat lon name folder).
Proof.
  intros Hwf other. unfold Heap._add_placemark.
  assert (Hext : forall l,
            NoDup l /\ Forall (fun i => (i < Heap.next_dict h)%nat) l ->
            NoDup (l ++ [Heap.next_dict h]) /\
            Forall (fun i => (i < S (Heap.next_dict h))%nat)
              (l ++ [Heap.next_dict h])).
  { intros l [Hnd Hlt]. split.
    - apply NoDup_app. split; [exact Hnd|]. split.
      + intros i Hi ->%list_elem_of_singleton.
        rewrite List.Forall_forall in Hlt.
        apply list_elem_of_In in Hi. specialize (Hlt _ Hi). lia.
      + apply NoDup_singleton.
    - apply Forall_app. split.
      + eapply List.Forall_impl; [|exact Hlt]. intros; cbn in *; lia.
      + repeat constructor. }
  assert (Hweak : forall l,
            NoDup l /\ Forall (fun i => (i < Heap.next_dict h)%nat) l ->
            NoDup l /\ Forall (fun i => (i < S (Heap.next_dict h))%nat) l).
  { intros l [Hnd Hlt]. split; [exact Hnd|].
    eapply List.Forall_impl; [|exact Hlt]. intros; cbn in *; lia. }
  pose proof (Hwf self) as Hself. pose proof (Hwf other) as Hother.
  unfold Heap.placemark_list_of in *.
  destruct (Heap.own_placemark_list h !! self) as [l|] eqn:El; cbn.
  - destruct (Nat.eqb_spec other self) as [->|Hne].
    + rewrite lookup_insert_eq. now apply Hext.
    + rewrite lookup_insert_ne by congruence. now apply Hweak.
  - destruct (Heap.own_placemark_list h !! other) as [l'|];
      [now apply Hweak | now apply Hext].
Qed.

Lemma reorder_well_formed (T : float) (h : Heap.heap) (self : nat) :
  Heap.well_formed h ->
  Heap.well_formed (fst (Heap._reorder_placemarks T h self)).
Proof.
  intros Hwf other. rewrite heap_reorder_lists.
  assert (Hn : Heap.next_dict (fst (Heap._reorder_placemarks T h self))
               = Heap.next_dict h).
  { unfold Heap._reorder_placemarks, Heap._filter_placemarks.
    now destruct (Heap.filter_refs _ _ _ _ _). }
  rewrite Hn. destruct (Nat.eqb other self); [|apply Hwf].
  destruct (Hwf self) as [Hnd Hlt].
  pose proof (sorted_perm key_lt (fun i => sort_key (Heap.dict h i))
                (Heap.placemark_list_of h self)) as Hp.
  split.
  - apply (NoDup_Permutation_proper _ _ Hp), Hnd.
  - eapply Permutation_Forall; [|exact Hlt]. now symmetry.
Qed.

Lemma filter_refs_data (T : float) (l : list nat) : forall kept n d j,
  data (fst (Heap.filter_refs T kept n l d) j) = data (d j).
Proof.
  induction l as [|i l IH]; intros kept n d j; cbn [Heap.filter_refs];
    [reflexivity|].
  set (d1 := Heap.store d i (set_Export (d i) true)).
  assert (E1 : data (d1 j) = data (d j)).
  { unfold d1, Heap.store. now destruct (Nat.eqb_spec j i) as [->|]. }
  destruct (scan_kept T (d1 i) (map d1 kept)) as [[|]|e]; cbn [fst].
  - now rewrite IH.
  - rewrite IH. unfold Heap.store at 1.
    destruct (Nat.eqb_spec j i) as [->|]; [|exact E1].
    rewrite <- E1. reflexivity.
  - exact E1.
Qed.

Lemma heap_reorder_data (T : float) (h : Heap.heap) (self j : nat) :
  data (Heap.dict (fst (Heap._reorder_placemarks T h self)) j)
  = data (Heap.dict h j).
Proof.
  unfold Heap._reorder_placemarks, Heap._filter_placemarks.
  match goal with
  | |- context [Heap.filter_refs T ?k ?n ?l ?d] =>
      pose proof (filter_refs_data T l k n d j) as H;
      destruct (Heap.filter_refs T k n l d) as [d' r]
  end.
  exact H.
Qed.

Lemma add_placemark_view (h : Heap.heap) (self other : nat)
    lat lon name folder :
  Heap.well_formed h ->
  Heap.view (Heap._add_placemark h self lat lon name folder) other
  = if Heap.shares_list h self other
    then Heap.view h other ++ [mk_placemark lat lon name folder None]
    else Heap.view h other.
Proof.
  intros Hwf. destruct (Hwf other) as [_ Hlt].
  assert (Hfresh : ~ In (Heap.next_dict h) (Heap.placemark_list_of h other)).
  { rewrite List.Forall_forall in Hlt. intros Hin.
    specialize (Hlt _ Hin). lia. }
  unfold Heap.view, Heap._add_placemark, Heap.shares_list.
  unfold Heap.placemark_list_of in *.
  destruct (Heap.own_placemark_list h !! self) as [l|] eqn:El; cbn.
  - destruct (Nat.eqb_spec self other) as [<-|Hne].
    + rewrite lookup_insert_eq. rewrite El in Hfresh |- *.
      rewrite map_app, (map_store_notin _ _ _ _ Hfresh). cbn.
      now rewrite store_same.
    + rewrite lookup_insert_ne by congruence.
      now rewrite (map_store_notin _ _ _ _ Hfresh).
  - destruct (Heap.own_placemark_list h !! other) as [l'|] eqn:El'.
    + destruct (Nat.eqb_spec self other) as [<-|Hne]; [congruence|].
      now rewrite (map_store_notin _ _ _ _ Hfresh).
    + rewrite map_app, (map_store_notin _ _ _ _ Hfresh). cbn.
      now rewrite store_same.
Qed.

Lemma heap_reorder_own (T : float) (h : Heap.heap) (self other : nat) :
  Heap.own_placemark_list (fst (Heap._reorder_placemarks T h self)) !! other
  = if Nat.eqb other self
    then Some (sorted key_lt (fun i => sort_key (Heap.dict h i))
                 (Heap.placemark_list_of h self))
    else Heap.own_placemark_list h !! other.
Proof.
  unfold Heap._reorder_placemarks, Heap._filter_placemarks.
  destruct (Heap.filter_refs _ _ _ _ _) as [d r].
  cbn [fst Heap.own_placemark_list].
  destruct (Nat.eqb_spec other self) as [->|H].
  - now rewrite lookup_insert_eq.
  - now rewrite lookup_insert_ne by congruence.
Qed.

(** X15. The dicts are shared between the lists.  When an instance
    reorders the list it shares with another instance, it sees the records
    sorted and flagged as [_reorder_placemarks] on the list of values
    computes them; the list of the other instance keeps its references in
    their old order, and the records seen through it are the same dicts,
    with the data unchanged and with the flags that the filter wrote. *)
Theorem reorder_flags_the_shared_dicts (T : float) (h : Heap.heap)
    (a b : nat) :
  Heap.well_formed h ->
  Heap.own_placemark_list h !! a = None ->
  Heap.own_placemark_list h !! b = None ->
  a <> b ->
  Heap.view (fst (Heap._reorder_placemarks T h a)) a
  = fst (_reorder_placemarks T (Heap.view h a)) /\
  snd (Heap._reorder_placemarks T h a)
  = snd (_reorder_placemarks T (Heap.view h a)) /\
  Heap.placemark_list_of (fst (Heap._reorder_placemarks T h a)) b
  = Heap.placemark_list_of h b /\
  Permutation (Heap.view (fst (Heap._reorder_placemarks T h a)) b)
    (Heap.view (fst (Heap._reorder_placemarks T h a)) a) /\
  map data (Heap.view (fst (Heap._reorder_placemarks T h a)) b)
  = map data (Heap.view h b).
Proof.
  intros Hwf Ha Hb Hab.
  destruct (heap_reorder_view T h a (proj1 (Hwf a))) as [H1 H2].
  split; [exact H1|]. split; [exact H2|].
  assert (Hlb : Heap.placemark_list_of (fst (Heap._reorder_placemarks T h a)) b
                = Heap.placemark_list_of h b).
  { rewrite heap_reorder_lists.
    destruct (Nat.eqb_spec b a); [congruence | reflexivity]. }
  split; [exact Hlb|]. split.
  - unfold Heap.view. rewrite Hlb, heap_reorder_lists, Nat.eqb_refl.
    apply Permutation_map.
    assert (E : Heap.placemark_list_of h b = Heap.placemark_list_of h a).
    { unfold Heap.placemark_list_of. now rewrite Ha, Hb. }
    rewrite E. symmetry. apply sorted_perm.
  - unfold Heap.view. rewrite Hlb, !map_map.
    apply map_ext. intros i. apply heap_reorder_data.
Qed.

(** X16. The instances share the list only until one of them renders.
    While neither has a list of its own, a record added through one is seen
    through the other.  The assignment in [_reorder_placemarks] binds a new
    list to the instance: after it, a record added through that instance
    is not seen through the other, and a record added through the other is
    not seen through it. *)
Theorem instances_stop_sharing_after_a_render (T : float) (h : Heap.heap)
    (a b : nat) (lat lon : float) (name folder : string) :
  Heap.well_formed h ->
  Heap.own_placemark_list h !! a = None ->
  Heap.own_placemark_list h !! b = None ->
  a <> b ->
  Heap.view (Heap._add_placemark h a lat lon name folder) b
  = Heap.view h b ++ [mk_placemark lat lon name folder None] /\
  Heap.view
    (Heap._add_placemark (fst (Heap._reorder_placemarks T h a)) a
       lat lon name folder) b
  = Heap.view (fst (Heap._reorder_placemarks T h a)) b /\
  Heap.view
    (Heap._add_placemark (fst (Heap._reorder_placemarks T h a)) a
       lat lon name folder) a
  = Heap.view (fst (Heap._reorder_placemarks T h a)) a
    ++ [mk_placemark lat lon name folder None] /\
  Heap.view
    (Heap._add_placemark (fst (Heap._reorder_placemarks T h a)) b
       lat lon name folder) a
  = Heap.view (fst (Heap._reorder_placemarks T h a)) a.
Proof.
  intros Hwf Ha Hb Hab.
  pose proof (reorder_well_formed T h a Hwf) as Hwf'.
  rewrite !add_placemark_view by assumption.
  unfold Heap.shares_list. rewrite Ha, Hb, !heap_reorder_own, Nat.eqb_refl.
  destruct (Nat.eqb_spec b a) as [->|_]; [congruence|]. rewrite Hb.
  destruct (Nat.eqb_spec a b) as [->|_]; [congruence|].
  auto.
Qed.

End HeapProperties.

(** ** The class [KML] of [KML.py] *)

Section LegacyProperties.

Context {lib : Library} {fs : FileSystem}.

#[local] Set Default Proof Using "Type".

Lemma legacy_scan_files_app (folder : string) (pre : list Path) :
  forall tags n st, exists tags' n' new,
    Forall (fun c => Folder c = folder /\ Export c = None) new /\
    (n' = n + length new)%nat /\
    forall rest,
      Legacy.scan_files folder (pre ++ rest) tags n st
      = Legacy.scan_files folder rest tags' n' (st ++ new).
Proof.
  induction pre as [|f pre IH]; intros tags n st.
  - exists tags, n, []. split; [constructor|]. split; [cbn; lia|].
    intros rest. now rewrite app_nil_r.
  - cbn [app Legacy.scan_files].
    set (tags1 := match process_file (path_str f) with
                  | Returns t => Some t
                  | Raises _ => tags
                  end).
    destruct tags1 as [t|]; [|apply IH].
    destruct (gps_of_tags t) as [[my_lat my_lon]|e]; [|apply IH].
    destruct (IH (Some t) (S n)
                (add_placemark st my_lat my_lon (path_str f) folder))
      as (tags' & n' & new & Hnew & Hn & Hrest).
    exists tags', n',
      (mk_placemark my_lat my_lon (path_str f) folder None :: new).
    split; [constructor; [split; reflexivity | exact Hnew]|].
    split; [cbn; lia|].
    intros rest. rewrite Hrest. unfold add_placemark.
    now rewrite <- app_assoc.
Qed.

(** X17. [KML.ScanFolder] is stopped by no file: when the listing returns
    the scan returns, also past a file that cannot be read or whose
    denominators are 0; it only appends, the new records carry the folder
    and no ["Export"] key, and it returns their number. *)
Theorem ScanFolder_is_stopped_by_no_file (folder : string)
    (st : list placemark) (file_list : list Path) :
  extend_file_list folder file_types [] = Returns file_list ->
  exists new : list placemark,
    Legacy.ScanFolder folder st = (st ++ new, Returns (length new)) /\
    Forall (fun c => Folder c = folder /\ Export c = None) new.
Proof.
  intros Hl. unfold Legacy.ScanFolder. rewrite Hl.
  destruct (legacy_scan_files_app folder file_list None 0 st)
    as (tags' & n' & new & Hnew & Hn & Hrest).
  specialize (Hrest []). rewrite app_nil_r in Hrest. rewrite Hrest.
  cbn in *. subst n'. now exists new.
Qed.

(** X18. [KML.ScanFolder] reuses the tags of the file before: the first
    [try] does not leave the iteration, so a file that cannot be read,
    listed after a file with coordinates, is recorded under its own name
    at the coordinates of that file. *)
Theorem ScanFolder_reuses_the_tags_of_the_file_before (folder : string)
    (st : list placemark) (pre post : list Path) (f g : Path)
    (t : gmap string tag_values) (my_lat my_lon : float)
    (e : scan_exception) :
  extend_file_list folder file_types [] = Returns (pre ++ f :: g :: post) ->
  process_file (path_str f) = Returns t ->
  gps_of_tags t = Returns (my_lat, my_lon) ->
  process_file (path_str g) = Raises e ->
  exists before after : list placemark,
    fst (Legacy.ScanFolder folder st)
    = st ++ before
      ++ [mk_placemark my_lat my_lon (path_str f) folder None;
          mk_placemark my_lat my_lon (path_str g) folder None]
      ++ after.
Proof.
  intros Hl Hf Hgps Hg. unfold Legacy.ScanFolder. rewrite Hl.
  destruct (legacy_scan_files_app folder pre None 0 st)
    as (tags1 & n1 & before & _ & _ & Hpre).
  rewrite Hpre. cbn [Legacy.scan_files]. rewrite Hf, Hgps, Hg, Hgps.
  destruct (legacy_scan_files_app folder post (Some t) (S (S n1))
              (add_placemark
                 (add_placemark (st ++ before) my_lat my_lon (path_str f)
                    folder)
                 my_lat my_lon (path_str g) folder))
    as (tags2 & n2 & after & _ & _ & Hpost).
  specialize (Hpost []). rewrite app_nil_r in Hpost. rewrite Hpost.
  exists before, after. cbn [Legacy.scan_files].
  destruct (Legacy.scan_files folder [] tags2 n2 _) eqn:E.
  cbn in E. injection E as <- _. cbn [fst]. unfold add_placemark.
  now rewrite <- !app_assoc.
Qed.

(** X19. [KML.SaveKMLFile] raises exactly when the tree cannot be built:
    an exception of the reordering or of the empty list passes through it,
    and once the tree is built it returns, [True] when the file was
    written and [False] for every exception of the write; no exception of
    the pretty-printer or of the write leaves it. *)
Theorem SaveKMLFile_raises_only_without_a_tree (name desc : string)
    (T : float) (st : list placemark) (path : string) :
  (forall e,
     snd (_get_kml_tree name desc T st) = Raise e ->
     snd (Legacy.SaveKMLFile name desc T st path) = Raise e) /\
  (forall tree,
     snd (_get_kml_tree name desc T st) = Ret tree ->
     exists kml_string,
       snd (Legacy._GetKMLString name desc T st) = Ret kml_string /\
       snd (Legacy.SaveKMLFile name desc T st path)
       = Ret (match write_file path kml_string with
              | None => true
              | Some _ => false
              end)).
Proof.
  unfold Legacy.SaveKMLFile, Legacy._GetKMLString.
  destruct (_get_kml_tree name desc T st) as [st' [tree|e]]; cbn [fst snd bind].
  - split; [discriminate|]. intros ? _.
    destruct (minidom_toprettyxml (ET_tostring tree.1)) as [pretty|e];
      cbn [bind]; eexists; (split; [reflexivity|]);
      now destruct (write_file path _).
  - split; [now intros ? [= <-] | discriminate].
Qed.

End LegacyProperties.


(** ** Concrete runs *)

Example three_close_filtered :
  map Export (fst (_filter_placemarks (lib := sample) 50 three_close))
  = [Some true; Some false; Some true].
Proof. vm_compute. reflexivity. Qed.

Example four_unsorted_reordered :
  map Name (fst (_reorder_placemarks (lib := sample) 0 four_unsorted))
  = ["Point1"; "Point2"; "Point3"; "Point4"].
Proof. vm_compute. reflexivity. Qed.

#[warnings="-inexact-float"]
Example float_repr_samples :
  map PyFloat.float_repr
    [45.5; -73.5; 0.5; 100; 0.0001; 0.00001; 1e16; 1e15; 1e22; -0]
  = ["45.5"; "-73.5"; "0.5"; "100.0"; "0.0001"; "1e-05"; "1e+16";
     "1000000000000000.0"; "1e+22"; "-0.0"].
Proof. vm_compute. reflexivity. Qed.

Lemma filter_keeps_later_apart_witness :
  exists d,
    _distance_between_placemarks (lib := sample) 45.125 (-73.5) 45 (-73.5)
    = Ret d /\
    (d <? 50) = false /\
    (is_nan d = false -> is_nan 50 = false -> (50 <=? d) = true).
Proof.
  apply (filter_keeps_later_apart (lib := sample) 50 three_close
           (fst (_filter_placemarks (lib := sample) 50 three_close))
           2 eq_refl 0 2
           (mk_placemark 45 (-73.5) "p1.jpg" "/folder" (Some true))
           (mk_placemark 45.125 (-73.5) "p3.jpg" "/folder" (Some true)));
    [lia | reflexivity | reflexivity | reflexivity | reflexivity].
Defined.

Lemma reorder_sorts_stably_witness :
  Permutation
    (map data (fst (_reorder_placemarks (lib := sample) 0 four_unsorted)))
    (map data four_unsorted) /\
  (forall (i j : nat) a b, (i < j)%nat ->
     fst (_reorder_placemarks (lib := sample) 0 four_unsorted) !! i = Some a ->
     fst (_reorder_placemarks (lib := sample) 0 four_unsorted) !! j = Some b ->
     String.leb (Folder a) (Folder b) = true /\
     (Folder a = Folder b -> (Latitude a <=? Latitude b) = true)) /\
  (forall k : string * float,
     map data (List.filter (fun c => key_eqb (sort_key c) k)
                 (fst (_reorder_placemarks (lib := sample) 0 four_unsorted)))
     = map data (List.filter (fun c => key_eqb (sort_key c) k) four_unsorted)).
Proof.
  apply (reorder_sorts_stably (lib := sample) 0 four_unsorted).
  repeat constructor.
Defined.

Lemma threshold_is_strict_witness :
  _filter_placemarks (lib := sample) 0 three_close
  = (map (fun c => set_Export c true) three_close, Ret 3%nat) /\
  exists s2 r,
    _filter_placemarks (lib := sample) second_to_first
      ([mk_placemark 45 (-73.5) "p1.jpg" "/folder" None]
       ++ mk_placemark 45.0000152587890625 (-73.5) "p2.jpg" "/folder" None
       :: [])
    = ([mk_placemark 45 (-73.5) "p1.jpg" "/folder" (Some true)]
       ++ mk_placemark 45.0000152587890625 (-73.5) "p2.jpg" "/folder"
            (Some true)
       :: s2, r).
Proof.
  split.
  - apply (proj1 (threshold_is_strict (lib := sample) 0) three_close).
    intros c k Hc Hk.
    destruct Hc as [<-|[<-|[<-|[]]]], Hk as [<-|[<-|[<-|[]]]];
      eexists; (split; [vm_compute; reflexivity | reflexivity]).
  - apply (proj2 (threshold_is_strict (lib := sample) second_to_first)
             [mk_placemark 45 (-73.5) "p1.jpg" "/folder" None]
             (mk_placemark 45.0000152587890625 (-73.5) "p2.jpg" "/folder" None)
             []
             [mk_placemark 45 (-73.5) "p1.jpg" "/folder" (Some true)]
             1%nat eq_refl).
    intros k [<-|[]] _.
    exists second_to_first. split; reflexivity.
Defined.

Lemma one_folder_per_folder_value_witness :
  In (Folder_element "/b" [])
    (folders_in
       (kml_root "m" ""
          [Folder_element "/a"
             [Placemark_element (lib := sample)
                (mk_placemark 45 (-73.5) "a.jpg" "/a" (Some true))];
           Folder_element "/b" []])).
Proof.
  destruct (one_folder_per_folder_value (lib := sample) "m" "" 50 two_folders
              (kml_root "m" ""
                 [Folder_element "/a"
                    [Placemark_element (lib := sample)
                       (mk_placemark 45 (-73.5) "a.jpg" "/a" (Some true))];
                  Folder_element "/b" []])
              1%nat)
    as (_ & labels & _ & Hin & _ & Hempty).
  - repeat constructor.
  - vm_compute. reflexivity.
  - apply (Hempty "/b").
    + apply Hin.
      exists (mk_placemark 45 (-73.5) "b.jpg" "/b" (Some false)).
      split; [right; left|]; reflexivity.
    + intros c [<-|[<-|[]]]; [discriminate | reflexivity].
Defined.

Lemma filter_idempotent_witness :
  _filter_placemarks (lib := sample) 50
    (fst (_filter_placemarks (lib := sample) 50 three_close))
  = _filter_placemarks (lib := sample) 50 three_close.
Proof.
  exact (proj1 (filter_idempotent (lib := sample) 50 three_close)).
Defined.

Lemma coordinates_longitude_first_witness :
  map point_coordinates
    (all_placemarks
       (folders_in
          (kml_root "m" ""
             [Folder_element "/a"
                [Placemark_element (lib := sample)
                   (mk_placemark 45 (-73.5) "a.jpg" "/a" (Some true))];
              Folder_element "/b" []])))
  = map (fun c => Some (PyFloat.float_repr (Longitude c) ++ ","
                        ++ PyFloat.float_repr (Latitude c))%string)
      (List.filter exported
         (fst (_get_kml_tree (lib := sample) "m" "" 50 two_folders))).
Proof.
  apply (proj1 (coordinates_longitude_first (lib := sample) "m" "" 50)
           two_folders _ 1%nat).
  vm_compute. reflexivity.
Defined.

Lemma save_kml_file_reports_OSError_witness :
  snd (save_kml_file (lib := sample) "m" "" 50 two_folders "/missing/out.kml")
  = Ret false /\
  snd (save_kml_file (lib := sample) "m" "" 50 two_folders "out.kml")
  = Ret true.
Proof.
  split.
  - eapply (proj1 (proj2 (save_kml_file_reports_OSError (lib := sample)
                            "m" "" 50 two_folders "/missing/out.kml" _ _))
              FileNotFoundError); reflexivity.
  - eapply (proj1 (save_kml_file_reports_OSError (lib := sample)
                     "m" "" 50 two_folders "out.kml" _ _)); reflexivity.
  Unshelve. all: try (vm_compute; reflexivity).
Defined.

(** C9, as stated, fails: the exception of the empty store passes through
    [save_kml_file], and so does an exception of the write that is not an
    [OSError]. *)
Lemma save_kml_file_lets_exceptions_through :
  snd (save_kml_file (lib := sample) "m" "" 50 [] "out.kml")
  = Raise IndexError /\
  snd (save_kml_file (lib := sample_unencodable) "m" "" 50 two_folders "out.kml")
  = Raise UnicodeEncodeError.
Proof. split; vm_compute; reflexivity. Qed.

Lemma render_reorders_and_flags_witness :
  map Export
    (fst (_get_kml_string (lib := sample) "m" "" 50 three_close))
  = [Some true; Some false; Some true].
Proof.
  rewrite (proj1 (render_reorders_and_flags (lib := sample)
                    "m" "" 50 three_close "out.kml")).
  vm_compute. reflexivity.
Defined.

Example twice_the_same_filtered :
  map Export (fst (_filter_placemarks (lib := sample) 50 twice_the_same))
  = [Some true; Some false; Some true].
Proof. vm_compute. reflexivity. Qed.

Example photos_scanned :
  scan_folder (fs := photos) "/photos" []
  = ([mk_placemark 45.5 (-73.5) "/photos/a.jpg" "/photos" None;
      mk_placemark 45.125 (-73.5) "/photos/raw/b.dng" "/photos" None],
     Returns 2%nat).
Proof. vm_compute. reflexivity. Qed.

Lemma export_count_counts_flags_witness :
  2%nat
  = length (List.filter exported
              (fst (_filter_placemarks (lib := sample) 50 three_close))) /\
  (2 <= length three_close)%nat.
Proof.
  destruct (proj1 (export_count_counts_flags (lib := sample) 50)
              three_close
              (fst (_filter_placemarks (lib := sample) 50 three_close))
              2%nat eq_refl) as (H1 & H2 & _).
  split; [exact H1 | exact H2].
Defined.

Lemma suppressed_is_close_to_an_exported_witness :
  exists (i : nat) (k : placemark) (d : float),
    (i < 1)%nat /\
    fst (_filter_placemarks (lib := sample) 50 three_close) !! i = Some k /\
    Export k = Some true /\
    _distance_between_placemarks (lib := sample)
      45.0000152587890625 (-73.5) (Latitude k) (Longitude k) = Ret d /\
    (d <? 50) = true.
Proof.
  apply (suppressed_is_close_to_an_exported (lib := sample) 50 three_close
           (fst (_filter_placemarks (lib := sample) 50 three_close))
           2 eq_refl 1
           (mk_placemark 45.0000152587890625 (-73.5) "p2.jpg" "/folder"
              (Some false)));
    reflexivity.
Defined.

Lemma render_fails_only_on_empty_or_distance_witness :
  exists c k,
    In c one_infinite /\ In k one_infinite /\
    _distance_between_placemarks (lib := sample)
      (Latitude c) (Longitude c) (Latitude k) (Longitude k)
    = Raise ValueError.
Proof.
  destruct (proj1 (render_fails_only_on_empty_or_distance (lib := sample)
                     "m" "" 50 one_infinite) ValueError eq_refl)
    as [[H _]|[_ H]]; [discriminate H | exact H].
Defined.

Lemma render_is_repeatable_witness :
  _get_kml_string (lib := sample) "m" "" 0
    (fst (_get_kml_string (lib := sample) "m" "" 0 four_unsorted))
  = _get_kml_string (lib := sample) "m" "" 0 four_unsorted.
Proof.
  apply (render_is_repeatable (lib := sample) "m" "" 0 four_unsorted
           "out.kml").
  repeat constructor.
Defined.

Lemma scan_folder_returns_witness :
  scan_folder (fs := photos) "/photos" []
  = ([] ++ omap (placemark_of (fs := photos) "/photos")
             (List.filter visible
                ([mk_Path "/photos/a.jpg" "a.jpg";
                  mk_Path "/photos/._a.jpg" "._a.jpg";
                  mk_Path "/photos/locked.jpg" "locked.jpg"]
                 ++ [mk_Path "/photos/scan.jpeg" "scan.jpeg"]
                 ++ [mk_Path "/photos/raw/b.dng" "b.dng"])),
     Returns 2%nat).
Proof.
  apply (scan_folder_returns (fs := photos) "/photos" []
           [mk_Path "/photos/a.jpg" "a.jpg";
            mk_Path "/photos/._a.jpg" "._a.jpg";
            mk_Path "/photos/locked.jpg" "locked.jpg"]
           [mk_Path "/photos/scan.jpeg" "scan.jpeg"]
           [mk_Path "/photos/raw/b.dng" "b.dng"]
           eq_refl eq_refl eq_refl).
  - repeat constructor; intros e H; vm_compute in H;
      first [discriminate H | injection H as <-; reflexivity].
  - repeat apply List.Forall_cons; try apply List.Forall_nil;
      intros tags e H1 H2; vm_compute in H1;
      first [ discriminate H1
            | injection H1 as <-; vm_compute in H2;
              first [ discriminate H2
                    | injection H2 as <-; split; discriminate ] ].
Defined.

Lemma scan_folder_raises_only_witness :
  extend_file_list (fs := photos) "/nofix" file_types []
  = Raises ZeroDivisionError \/
  exists file_list f,
    extend_file_list (fs := photos) "/nofix" file_types []
    = Returns file_list /\
    In f file_list /\ visible f = true /\
    ((process_file (FileSystem := photos) (path_str f)
      = Raises ZeroDivisionError /\
      caught_reading ZeroDivisionError = false) \/
     (exists tags,
        process_file (FileSystem := photos) (path_str f) = Returns tags /\
        gps_of_tags tags = Raises ZeroDivisionError /\
        (ZeroDivisionError = ZeroDivisionError \/
         ZeroDivisionError = OverflowError))).
Proof.
  apply (scan_folder_raises_only (fs := photos) "/nofix" []
           ZeroDivisionError).
  reflexivity.
Defined.

Lemma zero_denominator_stops_the_scan_witness :
  scan_folder (fs := photos) "/nofix" []
  = ([] ++ omap (placemark_of (fs := photos) "/nofix")
             [mk_Path "/nofix/first.jpg" "first.jpg"],
     Raises ZeroDivisionError).
Proof.
  apply (zero_denominator_stops_the_scan (fs := photos) "/nofix" []
           [mk_Path "/nofix/first.jpg" "first.jpg";
            mk_Path "/nofix/nofix.jpg" "nofix.jpg";
            mk_Path "/nofix/last.jpg" "last.jpg"]
           [mk_Path "/nofix/first.jpg" "first.jpg"]
           [mk_Path "/nofix/last.jpg" "last.jpg"]
           (mk_Path "/nofix/nofix.jpg" "nofix.jpg")
           (gps_tags [Ratio 0 0; Ratio 0 0; Ratio 0 0] "N"
                     [Ratio 0 0; Ratio 0 0; Ratio 0 0] "E")
           0 0 [Ratio 0 0; Ratio 0 0]);
    try reflexivity.
  repeat constructor.
Defined.

Lemma scan_folder_ignores_hidden_files_witness :
  scan_folder (fs := photos) "/photos" []
  = scan_folder (fs := photos_with_fork) "/photos" [].
Proof.
  apply (scan_folder_ignores_hidden_files photos photos_with_fork
           "/photos" []).
  - reflexivity.
  - intros pattern found f Hg Hin Hf. cbn in Hg.
    unfold photos_glob in Hg. cbn [String.eqb Ascii.eqb Bool.eqb] in Hg.
    destruct (pattern =? "**/*.jpg")%string;
      [|destruct (pattern =? "**/*.jpeg")%string;
        [|destruct (pattern =? "**/*.dng")%string]];
      injection Hg as <-; cbn in Hin;
      repeat (destruct Hin as [<-|Hin]; [first [reflexivity | discriminate Hf]|]);
      destruct Hin.
Defined.

Lemma same_place_is_exported_once_witness :
  _distance_between_placemarks (lib := sample) 45.5 (-73.5) 45.5 (-73.5)
  = Ret 0 /\
  ((0 <? 50) = true ->
   Some true = Some true -> Some false = Some false).
Proof.
  apply (same_place_is_exported_once (lib := sample) 50 twice_the_same
           (fst (_filter_placemarks (lib := sample) 50 twice_the_same))
           2 0 1
           (mk_placemark 45.5 (-73.5) "a.jpg" "/photos" (Some true))
           (mk_placemark 45.5 (-73.5) "a_copy.jpg" "/photos" (Some false)));
    first [reflexivity | lia].
Defined.

Lemma scanned_folder_renders_one_Folder_witness :
  folders_in
    (kml_root "m" ""
       [Folder_element "/photos"
          [Placemark_element (lib := sample)
             (mk_placemark 45.125 (-73.5) "/photos/raw/b.dng" "/photos"
                (Some true));
           Placemark_element (lib := sample)
             (mk_placemark 45.5 (-73.5) "/photos/a.jpg" "/photos"
                (Some true))]])
  = [Folder_element "/photos"
       (map (Placemark_element (lib := sample))
          (List.filter exported
             (fst (_get_kml_tree (lib := sample) "m" "" 50
                     (fst (scan_folder (fs := photos) "/photos" []))))))] /\
  (1 <= 2)%nat /\ (2 <= 2)%nat.
Proof.
  apply (proj2 (scanned_folder_renders_one_Folder (lib := sample)
                  (fs := photos) "/photos" "m" "" 50
                  (fst (scan_folder (fs := photos) "/photos" [])) 2
                  eq_refl)
           (kml_root "m" ""
              [Folder_element "/photos"
                 [Placemark_element (lib := sample)
                    (mk_placemark 45.125 (-73.5) "/photos/raw/b.dng"
                       "/photos" (Some true));
                  Placemark_element (lib := sample)
                    (mk_placemark 45.5 (-73.5) "/photos/a.jpg" "/photos"
                       (Some true))]])
           2%nat).
  vm_compute. reflexivity.
Defined.

Example two_on_the_heap_reordered :
  let h := fst (Heap._reorder_placemarks (lib := sample) 50
                  two_on_the_heap 0) in
  map Name (Heap.view h 0) = ["a.jpg"; "b.jpg"] /\
  map Name (Heap.view h 1) = ["b.jpg"; "a.jpg"] /\
  map Export (Heap.view h 1) = [Some true; Some true].
Proof. vm_compute. repeat split. Qed.

Lemma two_on_the_heap_well_formed : Heap.well_formed two_on_the_heap.
Proof.
  repeat apply add_placemark_well_formed. apply class_defined_well_formed.
Qed.

Lemma reorder_flags_the_shared_dicts_witness :
  Heap.view (fst (Heap._reorder_placemarks (lib := sample) 50
                    two_on_the_heap 0)) 0
  = fst (_reorder_placemarks (lib := sample) 50
           (Heap.view two_on_the_heap 0)) /\
  map data (Heap.view (fst (Heap._reorder_placemarks (lib := sample) 50
                              two_on_the_heap 0)) 1)
  = map data (Heap.view two_on_the_heap 1).
Proof.
  destruct (reorder_flags_the_shared_dicts (lib := sample) 50
              two_on_the_heap 0 1 two_on_the_heap_well_formed
              eq_refl eq_refl)
    as (H1 & _ & _ & _ & H5); [discriminate|].
  split; [exact H1 | exact H5].
Defined.

Lemma instances_stop_sharing_after_a_render_witness :
  Heap.view (Heap._add_placemark two_on_the_heap 0 47 (-73.5) "c.jpg" "/a") 1
  = Heap.view two_on_the_heap 1
    ++ [mk_placemark 47 (-73.5) "c.jpg" "/a" None] /\
  Heap.view
    (Heap._add_placemark
       (fst (Heap._reorder_placemarks (lib := sample) 50 two_on_the_heap 0))
       0 47 (-73.5) "c.jpg" "/a") 1
  = Heap.view
      (fst (Heap._reorder_placemarks (lib := sample) 50 two_on_the_heap 0)) 1.
Proof.
  destruct (instances_stop_sharing_after_a_render (lib := sample) 50
              two_on_the_heap 0 1 47 (-73.5) "c.jpg" "/a"
              two_on_the_heap_well_formed eq_refl eq_refl)
    as (H1 & H2 & _); [discriminate|].
  split; [exact H1 | exact H2].
Defined.

Example nofix_scanned_by_ScanFolder :
  Legacy.ScanFolder (fs := photos) "/nofix" []
  = ([mk_placemark 45.5 (-73.5) "/nofix/first.jpg" "/nofix" None;
      mk_placemark 45.5 (-73.5) "/nofix/last.jpg" "/nofix" None],
     Returns 2%nat).
Proof. vm_compute. reflexivity. Qed.

Lemma ScanFolder_is_stopped_by_no_file_witness :
  exists new : list placemark,
    Legacy.ScanFolder (fs := photos) "/nofix" []
    = ([] ++ new, Returns (length new)) /\
    Forall (fun c => Folder c = "/nofix" /\ Export c = None) new.
Proof.
  apply (ScanFolder_is_stopped_by_no_file (fs := photos) "/nofix" []
           [mk_Path "/nofix/first.jpg" "first.jpg";
            mk_Path "/nofix/nofix.jpg" "nofix.jpg";
            mk_Path "/nofix/last.jpg" "last.jpg"]).
  reflexivity.
Defined.

Lemma ScanFolder_reuses_the_tags_of_the_file_before_witness :
  exists before after : list placemark,
    fst (Legacy.ScanFolder (fs := photos) "/photos" [])
    = [] ++ before
      ++ [mk_placemark 45.5 (-73.5) "/photos/a.jpg" "/photos" None;
          mk_placemark 45.5 (-73.5) "/photos/._a.jpg" "/photos" None]
      ++ after.
Proof.
  apply (ScanFolder_reuses_the_tags_of_the_file_before (fs := photos)
           "/photos" [] []
           [mk_Path "/photos/locked.jpg" "locked.jpg";
            mk_Path "/photos/scan.jpeg" "scan.jpeg";
            mk_Path "/photos/raw/b.dng" "b.dng"]
           (mk_Path "/photos/a.jpg" "a.jpg")
           (mk_Path "/photos/._a.jpg" "._a.jpg")
           montreal 45.5 (-73.5) (Builtin ValueError));
    reflexivity.
Defined.

Lemma SaveKMLFile_raises_only_without_a_tree_witness :
  snd (Legacy.SaveKMLFile (lib := sample_unencodable) "m" "" 50 []
         "out.kml")
  = Raise IndexError /\
  exists kml_string,
    snd (Legacy._GetKMLString (lib := sample_unencodable) "m" "" 50
           two_folders) = Ret kml_string /\
    snd (Legacy.SaveKMLFile (lib := sample_unencodable) "m" "" 50
           two_folders "out.kml")
    = Ret (match write_file (Library := sample_unencodable) "out.kml"
                   kml_string with
           | None => true
           | Some _ => false
           end).
Proof.
  split.
  - apply (proj1 (SaveKMLFile_raises_only_without_a_tree
                    (lib := sample_unencodable) "m" "" 50 [] "out.kml")).
    reflexivity.
  - eapply (proj2 (SaveKMLFile_raises_only_without_a_tree
                     (lib := sample_unencodable) "m" "" 50 two_folders
                     "out.kml")).
    vm_compute. reflexivity.
Defined.

(** ** The class attribute [_placemark_list] *)

(** An instance without a list of its own sees every placemark added
    through another such instance. *)
Lemma add_placemark_reaches_other_instances (h h' : Objects.heap)
    (a b : nat) (oa ob : Objects.instance) lat lon name folder :
  Objects.instances h !! a = Some oa ->
  Objects.instances h !! b = Some ob ->
  Objects.own_placemark_list oa = None ->
  Objects.own_placemark_list ob = None ->
  Objects._add_placemark h a lat lon name folder = Some h' ->
  Objects.placemark_list_of h' b
  = Some (Objects.Kml_placemark_list h
          ++ [mk_placemark lat lon name folder None]).
Proof.
  unfold Objects._add_placemark, Objects.placemark_list_of.
  intros Ha Hb Na Nb. rewrite Ha, Na. intros [= <-]. cbn.
  now rewrite Hb, Nb.
Qed.

(** C3. The placemark list is not per instance: [_placemark_list] is a
    class attribute that [__init__] does not rebind, so of two new
    instances the second sees the placemark added to the first. *)
Theorem placemark_list_is_shared :
  let '(a, h1) := Objects.Kml "A" Objects.class_defined in
  let '(b, h2) := Objects.Kml "B" h1 in
  a <> b /\
  Objects.placemark_list_of h2 b = Some [] /\
  match Objects._add_placemark h2 a 45.5 (-73.5) "a.jpg" "/a" with
  | Some h3 =>
      Objects.placemark_list_of h3 b
      = Some [mk_placemark 45.5 (-73.5) "a.jpg" "/a" None]
  | None => False
  end.
Proof. vm_compute. repeat split. discriminate. Qed.

